(** * CERTopedia: the request handlers of the CERT directory

    A shallow embedding of the two Lambda handlers of the repository
    ([lambda/handler.js], the static-asset server, and the JSON data API
    with its [loadCertData] / [filterCerts] / [getStats] helpers) together
    with [lambda/healthcheck.js], and the properties their specification
    states about caching, filtering, routing and response headers.

    Conventions.
    - A JS string is a [string]; its characters stand for the code units
      of the JS string.  The characters of [string] are 8 bits wide, so
      these are the JS strings with code units below 256 (ASCII and
      Latin-1).  Other text can be read as its UTF-8 encoding, which
      keeps equality, concatenation and containment of strings; only the
      order that [sort] uses is then the order by code point.
    - [String.prototype.toLowerCase] is not written out: it is any
      function with the properties of [JsString.CaseFolding], and every
      definition that lowers a string takes it as a parameter.
    - A JS object used as a dictionary (the file cache, a header object)
      is a [gmap string _].
    - A value that may be [null] is an [option].
    - [try { .. } catch] around a file read is the [option] returned by
      the read.
    - Module-level mutable state is threaded explicitly through a small
      state monad; the clock and the disk are an environment. *)

From Stdlib Require Import ZArith Ascii String List.
From stdpp Require Import base decidable option list sorting strings gmap.

Local Open Scope string_scope.
Local Open Scope Z_scope.

(** ** JavaScript strings *)

Module JsString.

(** The lowering of the letters A-Z; every other character is kept. *)
Definition lower_ascii (c : ascii) : ascii :=
  let n := N_of_ascii c in
  if ((65 <=? n) && (n <=? 90))%N then ascii_of_N (n + 32) else c.

Fixpoint lower_letters (s : string) : string :=
  match s with
  | EmptyString => EmptyString
  | String c s' => String (lower_ascii c) (lower_letters s')
  end.

(** Every character of [s] is an ASCII character. *)
Fixpoint is_ascii (s : string) : bool :=
  match s with
  | EmptyString => true
  | String c s' => (N_of_ascii c <? 128)%N && is_ascii s'
  end.

(** [String.prototype.toLowerCase].  It lowers every cased letter of
    Unicode (['Ö'] becomes ['ö']), by a table that is not written out
    here.  It is a function on strings of which two facts are used: on
    a string of ASCII characters it lowers the letters A-Z and keeps
    the rest, and it returns the empty string for the empty string
    only, a character being lowered to one character or more. *)
Class CaseFolding := {
  toLowerCase : string → string;
  toLowerCase_ascii : ∀ s, is_ascii s = true → toLowerCase s = lower_letters s;
  toLowerCase_empty : ∀ s, toLowerCase s = "" → s = ""
}.

(** The lowering of the letters A-Z alone is such a function.  The
    examples are run with it, on ASCII data, where every such function
    agrees with it. *)
Definition ascii_folding : CaseFolding.
Proof. refine {| toLowerCase := lower_letters |}; [done | by intros []]. Defined.

(** [s.startsWith(p)] *)
Fixpoint startsWith (s p : string) {struct p} : bool :=
  match p, s with
  | EmptyString, _ => true
  | String _ _, EmptyString => false
  | String b p', String a s' => if Ascii.eqb a b then startsWith s' p' else false
  end.

(** [s.includes(t)]: [t] occurs at some position of [s]. *)
Fixpoint includes (s t : string) : bool :=
  startsWith s t ||
  match s with
  | EmptyString => false
  | String _ s' => includes s' t
  end.

(** [s.slice(1)] *)
Definition slice1 (s : string) : string :=
  match s with
  | EmptyString => EmptyString
  | String _ s' => s'
  end.

(** Truthiness of a string value: only the empty string is falsy. *)
Definition truthy (s : string) : bool :=
  match s with
  | EmptyString => false
  | String _ _ => true
  end.

(** Truthiness of a value that is a string or [null]. *)
Definition truthy_opt (o : option string) : bool :=
  match o with
  | Some s => truthy s
  | None => false
  end.

(** [s.replace(pat, rep)] with a string pattern: the first occurrence
    of [pat] in [s] is replaced, the rest of [s] is kept. *)
Fixpoint drop_chars (n : nat) (s : string) : string :=
  match n, s with
  | O, _ => s
  | S _, EmptyString => EmptyString
  | S n', String _ s' => drop_chars n' s'
  end.

Fixpoint replace (s pat rep : string) : string :=
  if startsWith s pat then rep ++ drop_chars (String.length pat) s
  else match s with
       | EmptyString => EmptyString
       | String c s' => String c (replace s' pat rep)
       end.

End JsString.

Import JsString.

(** ** Data model: one CERT record of [data/certs.json] *)

Record PgpKey := mkPgpKey {
  available : bool;
  keyId : option string;
  fingerprint : option string
}.

Record Cert := mkCert {
  country : string;
  name : string;
  fullName : string;
  website : string;
  emergencyContact : string;
  email : string;
  established : Z;
  description : string;
  sector : string;
  verified : bool;
  lastUpdated : string;
  pgpKey : option PgpKey
}.

(** The [filters] object the API handler builds from the query string:
    every field is the value of [queryParams.get(..)], a string or
    [null]. *)
Record Filters := mkFilters {
  f_search : option string;
  f_sector : option string;
  f_country : option string;
  f_pgp : option string
}.

(** ** The filter pipeline *)

Module Query.

Section Predicates.

Context {folding : CaseFolding}.

(** The callback of the search filter. *)
Definition search_pred (searchTerm : string) (cert : Cert) : bool :=
  includes (toLowerCase (country cert)) searchTerm ||
  includes (toLowerCase (name cert)) searchTerm ||
  includes (toLowerCase (fullName cert)) searchTerm ||
  includes (toLowerCase (sector cert)) searchTerm ||
  includes (toLowerCase (description cert)) searchTerm.

Definition sector_pred (s : string) (cert : Cert) : bool :=
  String.eqb (toLowerCase (sector cert)) (toLowerCase s).

Definition country_pred (s : string) (cert : Cert) : bool :=
  String.eqb (toLowerCase (country cert)) (toLowerCase s).

End Predicates.

(** [cert.pgpKey && cert.pgpKey.available === true] *)
Definition pgp_pred (cert : Cert) : bool :=
  match pgpKey cert with
  | Some k => available k
  | None => false
  end.

(** The guards of the four steps: [filters.search],
    [filters.sector && filters.sector !== 'all'], [filters.country] and
    [filters.pgp === 'true']. *)
Definition search_on (filters : Filters) : bool :=
  truthy_opt (f_search filters).

Definition sector_on (filters : Filters) : bool :=
  truthy_opt (f_sector filters) && negb (bool_decide (f_sector filters = Some "all")).

Definition country_on (filters : Filters) : bool :=
  truthy_opt (f_country filters).

Definition pgp_on (filters : Filters) : bool :=
  bool_decide (f_pgp filters = Some "true").

(** The string a guarded step reads from a field of [filters]. *)
Definition str (o : option string) : string := default "" o.

Section Pipeline.

Context {folding : CaseFolding}.

(** [filterCerts(certs, filters)], on the contents of the arrays. *)
Definition filterCerts (certs : list Cert) (filters : Filters) : list Cert :=
  let filtered := certs in
  let filtered :=
    if search_on filters
    then let searchTerm := toLowerCase (str (f_search filters)) in
         List.filter (search_pred searchTerm) filtered
    else filtered in
  let filtered :=
    if sector_on filters
    then List.filter (sector_pred (str (f_sector filters))) filtered
    else filtered in
  let filtered :=
    if country_on filters
    then List.filter (country_pred (str (f_country filters))) filtered
    else filtered in
  let filtered :=
    if pgp_on filters
    then List.filter pgp_pred filtered
    else filtered in
  filtered.

End Pipeline.

End Query.

(** ** Node's [path] module (POSIX flavour) *)

Module Path.

Definition slash : ascii := "/"%char.
Definition dot : ascii := "."%char.

(** The segments of a path between its separators. *)
Fixpoint split_slash (s : string) : list string :=
  match s with
  | EmptyString => [EmptyString]
  | String c s' =>
      if Ascii.eqb c slash then EmptyString :: split_slash s'
      else match split_slash s' with
           | seg :: segs => String c seg :: segs
           | [] => [String c EmptyString]
           end
  end.

(** One step of [normalizeString] with [allowAboveRoot = true]: [res]
    is the stack of the segments kept so far, the last one first. *)
Definition push_segment (res : list string) (seg : string) : list string :=
  if String.eqb seg "" || String.eqb seg "." then res
  else if String.eqb seg ".." then
    match res with
    | [] => [".."]
    | last :: res' => if String.eqb last ".." then ".." :: res else res'
    end
  else seg :: res.

Fixpoint join_slash (segs : list string) : string :=
  match segs with
  | [] => ""
  | [seg] => seg
  | seg :: segs' => seg ++ "/" ++ join_slash segs'
  end.

Definition ends_with_slash (s : string) : bool :=
  match List.rev (list_ascii_of_string s) with
  | c :: _ => Ascii.eqb c slash
  | [] => false
  end.

(** [path.normalize] of a relative path. *)
Definition normalize_relative (p : string) : string :=
  let res := join_slash (List.rev (fold_left push_segment (split_slash p) [])) in
  if String.eqb res "" then (if ends_with_slash p then "./" else ".")
  else if ends_with_slash p then res ++ "/" else res.

(** [path.join(a, b)] for a relative, non-empty first argument. *)
Definition join (a b : string) : string :=
  normalize_relative (if String.eqb b "" then a else a ++ "/" ++ b).

(** [path.extname]: the extension of the last component, from its last
    dot; empty when there is no dot, when the dot is the first
    character of the component, or when the component is [".."]. *)
Fixpoint drop_slashes (l : list ascii) : list ascii :=
  match l with
  | c :: l' => if Ascii.eqb c slash then drop_slashes l' else l
  | [] => []
  end.

Fixpoint take_component (l : list ascii) : list ascii :=
  match l with
  | c :: l' => if Ascii.eqb c slash then [] else c :: take_component l'
  | [] => []
  end.

(** Splits the reversed component at its first dot: the characters
    after the last dot of the component (reversed), and those before. *)
Fixpoint split_dot (l : list ascii) : option (list ascii * list ascii) :=
  match l with
  | [] => None
  | c :: l' =>
      if Ascii.eqb c dot then Some ([], l')
      else match split_dot l' with
           | Some (ext, rest) => Some (c :: ext, rest)
           | None => None
           end
  end.

Definition extname (p : string) : string :=
  let comp := take_component (drop_slashes (List.rev (list_ascii_of_string p))) in
  match split_dot comp with
  | None => ""
  | Some (ext, rest) =>
      match rest, ext with
      | [], _ => ""
      | [c], [] => if Ascii.eqb c dot then "" else "."
      | _, _ => String dot (string_of_list_ascii (List.rev ext))
      end
  end.

End Path.

(** ** Effects: an environment and a module-level state

    A handler runs against an environment [E] (the clock, the disk, the
    process environment) and the mutable bindings of its module [S]. *)

Definition Eff (E S A : Type) : Type := E → S → A * S.

Definition eff_ret {E S A} (a : A) : Eff E S A := λ _ s, (a, s).

Definition eff_bind {E S A B} (m : Eff E S A) (k : A → Eff E S B) : Eff E S B :=
  λ e s, let '(a, s') := m e s in k a e s'.

Definition ask {E S} : Eff E S E := λ e s, (e, s).
Definition get_state {E S} : Eff E S S := λ _ s, (s, s).

Notation "'let*' x ':=' m 'in' k" := (eff_bind m (λ x, k))
  (at level 10, x name, m at level 100, k at level 200).
Notation "m ';;' k" := (eff_bind m (λ _, k))
  (at level 100, k at level 200, right associativity).

(** ** HTTP responses *)

(** Node's [Buffer]: the bytes of a file. *)
Definition Buffer : Type := list Byte.byte.

(** A header object.  The spread [{...a, ...b}] lets the later object
    win on a shared key. *)
Abbreviation Headers := (gmap string string).

Definition spread (a b : Headers) : Headers := b ∪ a.

Inductive Body (J : Type) : Type :=
| BodyLiteral (s : string)        (* a string literal of the source *)
| BodyUtf8 (b : Buffer)           (* [b.toString()] *)
| BodyBase64 (b : Buffer)         (* [b.toString('base64')] *)
| BodyJson (j : J).               (* [JSON.stringify(j)] *)

Arguments BodyLiteral {J} s.
Arguments BodyUtf8 {J} b.
Arguments BodyBase64 {J} b.
Arguments BodyJson {J} j.

(** [isBase64Encoded] is [None] where the response object has no such
    property. *)
Record Response (J : Type) := mkResponse {
  statusCode : Z;
  headers : Headers;
  body : Body J;
  isBase64Encoded : option bool
}.

Arguments mkResponse {J}.
Arguments statusCode {J}.
Arguments headers {J}.
Arguments body {J}.
Arguments isBase64Encoded {J}.

(** The event of an HTTP API invocation, as far as the handlers read
    it.  [ev_method] is [requestContext.http.method], [None] when the
    event has no [requestContext.http]; [ev_rawPath] is [None] when the
    property is missing; [ev_query] is the query string as
    [URLSearchParams] parses it, pairs of names and values in order. *)
Record Event := mkEvent {
  ev_method : option string;
  ev_rawPath : option string;
  ev_query : list (string * string)
}.

(** [{error, message}] *)
Record ErrorJson := mkErrorJson {
  err_error : string;
  err_message : string
}.

Definition CORS_ORIGIN : string := "https://cert.danieloo.com".

(** ** [lambda/handler.js]: the static-asset handler *)

Module Static.

Definition CACHE_TTL : Z := 300000.

Record CacheEntry := mkCacheEntry {
  content : Buffer;
  timestamp : Z
}.

(** The environment: [clock n] is what the [n]-th call of [Date.now()]
    returns, [disk filePath] the outcome of
    [fs.readFileSync(path.join(__dirname, '..', filePath))], [None]
    when it throws. *)
Record Env := mkEnv {
  clock : nat → Z;
  disk : string → option Buffer
}.

(** The module state: the [cache] map, and two counters of the effects
    performed so far: the clock readings taken and the paths read from
    disk (latest first). *)
Record State := mkState {
  cache : gmap string CacheEntry;
  ticks : nat;
  reads : list string
}.

Definition initial : State := mkState ∅ 0 [].

Abbreviation M := (Eff Env State).

Definition Date_now : M Z :=
  λ e s, (clock e (ticks s), mkState (cache s) (S (ticks s)) (reads s)).

Definition readFileSync (filePath : string) : M (option Buffer) :=
  λ e s, (disk e filePath, mkState (cache s) (ticks s) (filePath :: reads s)).

Definition cache_get (filePath : string) : M (option CacheEntry) :=
  λ _ s, (cache s !! filePath, s).

Definition cache_set (filePath : string) (entry : CacheEntry) : M unit :=
  λ _ s, (tt, mkState (<[filePath := entry]> (cache s)) (ticks s) (reads s)).

Definition mimeTypes : gmap string string :=
  list_to_map [
    (".html", "text/html");
    (".css", "text/css");
    (".js", "application/javascript");
    (".json", "application/json");
    (".png", "image/png");
    (".jpg", "image/jpeg");
    (".jpeg", "image/jpeg");
    (".gif", "image/gif");
    (".svg", "image/svg+xml");
    (".ico", "image/x-icon");
    (".woff", "font/woff");
    (".woff2", "font/woff2");
    (".ttf", "font/ttf");
    (".eot", "application/vnd.ms-fontobject")
  ].

Definition CONTENT_SECURITY_POLICY : string :=
  "default-src 'self'; script-src 'self' 'unsafe-inline' https://fonts.googleapis.com; style-src 'self' 'unsafe-inline' https://fonts.googleapis.com; font-src 'self' https://fonts.gstatic.com; img-src 'self' data: https:; connect-src 'self'; frame-ancestors 'none';".

Definition securityHeaders : Headers :=
  list_to_map [
    ("Strict-Transport-Security", "max-age=31536000; includeSubDomains");
    ("X-Content-Type-Options", "nosniff");
    ("X-Frame-Options", "DENY");
    ("X-XSS-Protection", "1; mode=block");
    ("Referrer-Policy", "strict-origin-when-cross-origin");
    ("Content-Security-Policy", CONTENT_SECURITY_POLICY)
  ].

Definition corsHeaders : Headers :=
  list_to_map [
    ("Access-Control-Allow-Origin", CORS_ORIGIN);
    ("Access-Control-Allow-Headers", "Content-Type, Authorization");
    ("Access-Control-Allow-Methods", "GET, POST, OPTIONS");
    ("Access-Control-Max-Age", "86400")
  ].

Section ContentType.

Context {folding : CaseFolding}.

(** [mimeTypes[ext] || 'application/octet-stream'] *)
Definition getContentType (filePath : string) : string :=
  let ext := toLowerCase (Path.extname filePath) in
  match mimeTypes !! ext with
  | Some type => if truthy type then type else "application/octet-stream"
  | None => "application/octet-stream"
  end.

End ContentType.

(** The [try] block of [getCachedFile]: read the file and store it
    under the clock reading [now]; [null] when the read throws. *)
Definition read_through (filePath : string) (now : Z) : M (option Buffer) :=
  let* read := readFileSync filePath in
  match read with
  | Some content =>
      cache_set filePath (mkCacheEntry content now);;
      eff_ret (Some content)
  | None => eff_ret None
  end.

Definition getCachedFile (filePath : string) : M (option Buffer) :=
  let* now := Date_now in
  let* cached := cache_get filePath in
  match cached with
  | Some entry =>
      if now - timestamp entry <? CACHE_TTL then eff_ret (Some (content entry))
      else read_through filePath now
  | None => read_through filePath now
  end.

(** The path under [dist] that a request path names. *)
Definition resolve (requestedPath : string) : string :=
  let filePath := if String.eqb requestedPath "/" then "/index.html" else requestedPath in
  let filePath := if startsWith filePath "/" then slice1 filePath else filePath in
  Path.join "dist" filePath.

Definition NOT_FOUND_HTML : string :=
  "<h1>404 - Not Found</h1><p>The requested resource was not found.</p>".

Definition isText (contentType : string) : bool :=
  startsWith contentType "text/" ||
  includes contentType "javascript" ||
  includes contentType "json".

Definition cacheControl (contentType : string) : string :=
  if String.eqb contentType "text/html" then "no-cache, no-store, must-revalidate"
  else if String.eqb contentType "application/json" then "public, max-age=3600"
  else "public, max-age=31536000, immutable".

(** The three responses of [handleStaticFile]. *)
Definition index_response (indexContent : Buffer) : Response ErrorJson :=
  mkResponse 200
    (<["Cache-Control" := "no-cache, no-store, must-revalidate"]>
       (spread {["Content-Type" := "text/html"]} securityHeaders))
    (BodyUtf8 indexContent) None.

Definition not_found_response : Response ErrorJson :=
  mkResponse 404
    (spread {["Content-Type" := "text/html"]} securityHeaders)
    (BodyLiteral NOT_FOUND_HTML) None.

Section Handlers.

Context {folding : CaseFolding}.

Definition file_response (filePath : string) (content : Buffer)
  : Response ErrorJson :=
  let contentType := getContentType filePath in
  let isText := isText contentType in
  mkResponse 200
    (spread (<["Cache-Control" := cacheControl contentType]>
               {["Content-Type" := contentType]}) securityHeaders)
    (if isText then BodyUtf8 content else BodyBase64 content)
    (Some (negb isText)).

Definition handleStaticFile (requestedPath : string) : M (Response ErrorJson) :=
  let filePath := resolve requestedPath in
  let* content := getCachedFile filePath in
  match content with
  | None =>
      (* Try index.html for SPA routing *)
      let* indexContent := getCachedFile "dist/index.html" in
      match indexContent with
      | Some indexContent => eff_ret (index_response indexContent)
      | None => eff_ret not_found_response
      end
  | Some content => eff_ret (file_response filePath content)
  end.

(** [rawPath || '/'] *)
Definition request_path (event : Event) : string :=
  match ev_rawPath event with
  | Some rawPath => if truthy rawPath then rawPath else "/"
  | None => "/"
  end.

(** [exports.handler].  Reading [requestContext.http.method] of an
    event without it throws, which the [catch] turns into the 500
    response. *)
Definition handler (event : Event) : M (Response ErrorJson) :=
  match ev_method event with
  | None =>
      eff_ret (mkResponse 500
        (spread {["Content-Type" := "application/json"]} securityHeaders)
        (BodyJson (mkErrorJson "Internal Server Error" "An unexpected error occurred"))
        None)
  | Some method =>
      let path := request_path event in
      if String.eqb method "OPTIONS" then
        eff_ret (mkResponse 200 (spread corsHeaders securityHeaders)
                   (BodyLiteral "") None)
      else if String.eqb method "GET" then
        let* response := handleStaticFile path in
        eff_ret (mkResponse (statusCode response)
                   (spread (headers response) corsHeaders)
                   (body response) (isBase64Encoded response))
      else
        eff_ret (mkResponse 405
          (spread (spread {["Content-Type" := "application/json"]} corsHeaders)
                  securityHeaders)
          (BodyJson (mkErrorJson "Method Not Allowed"
                       ("HTTP method " ++ method ++ " is not supported")))
          None)
  end.

End Handlers.

(** The outcome of a lookup that reads the disk: the file read and
    stored under the current clock reading, or nothing. *)
Definition after_read (e : Env) (s : State) (filePath : string)
  : option Buffer * State :=
  match disk e filePath with
  | Some c =>
      (Some c,
       mkState (<[filePath := mkCacheEntry c (clock e (ticks s))]> (cache s))
               (S (ticks s)) (filePath :: reads s))
  | None => (None, mkState (cache s) (S (ticks s)) (filePath :: reads s))
  end.

Section Responses.

Context {folding : CaseFolding}.


End Responses.

(** The cache agrees with the disk: every entry holds what the disk has
    under its path.  This holds of the empty cache and is kept by every
    lookup as long as the files do not change. *)
Definition coherent (e : Env) (s : State) : Prop :=
  ∀ filePath entry,
    cache s !! filePath = Some entry → disk e filePath = Some (content entry).

End Static.

(** ** The JSON data API handler *)

Module Api.

Definition CACHE_TTL : Z := 600000.

(** The environment: the clock, the outcome of reading and parsing
    [data/certs.json] ([None] when [fs.readFileSync] or [JSON.parse]
    throws; the file holds an array of records), the time value of
    [new Date(s)] ([None] for an invalid date),
    [process.env.API_VERSION], and the length of the longest array that
    the engine spreads into the arguments of a call ([f(...a)] on a
    longer one throws a [RangeError]). *)
Record Env := mkEnv {
  clock : nat → Z;
  dataFile : option (list Cert);
  dateParse : string → option Z;
  API_VERSION : option string;
  spreadLimit : nat
}.

(** The module state: [certData], [certDataTimestamp], and the numbers
    of clock readings and of reads of the data file so far. *)
Record State := mkState {
  certData : option (list Cert);
  certDataTimestamp : Z;
  ticks : nat;
  reads : nat
}.

Definition initial : State := mkState None 0 0 0.

Abbreviation M := (Eff Env State).

Definition Date_now : M Z :=
  λ e s, (clock e (ticks s),
          mkState (certData s) (certDataTimestamp s) (S (ticks s)) (reads s)).

Definition readDataFile : M (option (list Cert)) :=
  λ e s, (dataFile e,
          mkState (certData s) (certDataTimestamp s) (ticks s) (S (reads s))).

Definition store (data : list Cert) (now : Z) : M unit :=
  λ _ s, (tt, mkState (Some data) now (ticks s) (reads s)).

Definition reload (now : Z) : M (list Cert) :=
  let* parsed := readDataFile in
  match parsed with
  | Some data => store data now;; eff_ret data
  | None => eff_ret []
  end.

Definition loadCertData : M (list Cert) :=
  let* now := Date_now in
  let* s := get_state in
  match certData s with
  | Some data =>
      if now - certDataTimestamp s <? CACHE_TTL then eff_ret data
      else reload now
  | None => reload now
  end.

(** *** Views *)

(** [new Set(xs)] as the list of its elements in insertion order. *)
Definition Set_add (s : list string) (x : string) : list string :=
  if decide (x ∈ s) then s else s ++ [x].

Definition new_Set (xs : list string) : list string :=
  fold_left Set_add xs [].

(** The order of [Array.prototype.sort()] without a comparator on
    strings: by code units. *)
Definition code_unit_le (a b : string) : Prop := String.leb a b = true.

#[global] Instance code_unit_le_dec a b : Decision (code_unit_le a b).
Proof. unfold code_unit_le. apply _. Defined.

Definition sort (xs : list string) : list string :=
  merge_sort code_unit_le xs.

(** An entry [{name, count}] of the countries view. *)
Record CountryEntry := mkCountryEntry {
  ce_name : string;
  ce_count : nat
}.

Definition countries (certs : list Cert) : list CountryEntry :=
  List.map
    (λ c, mkCountryEntry c
            (List.length (List.filter (λ cert, String.eqb (country cert) c) certs)))
    (sort (new_Set (List.map country certs))).

(** *** Plain objects as dictionaries

    The [/sectors] route and [getStats] collect their entries in an
    object literal [{}], which inherits the members of
    [Object.prototype].  Reading a name of which the object has no own
    property gives the inherited member when the name is one of these:
    a function, or for [__proto__] the prototype object; either is
    truthy. *)
Definition Object_prototype : list string :=
  ["constructor"; "__defineGetter__"; "__defineSetter__"; "hasOwnProperty";
   "__lookupGetter__"; "__lookupSetter__"; "isPrototypeOf";
   "propertyIsEnumerable"; "toString"; "valueOf"; "__proto__";
   "toLocaleString"].

Definition inherited (key : string) : bool :=
  bool_decide (key ∈ Object_prototype).

(** The array index that a property name is: a decimal numeral in
    canonical form (no sign, no leading zero) below [2^32 - 1]. *)
Fixpoint numeral (s : string) (acc : N) : option N :=
  match s with
  | EmptyString => Some acc
  | String c s' =>
      let n := N_of_ascii c in
      if ((48 <=? n) && (n <=? 57))%N then numeral s' (10 * acc + (n - 48))%N
      else None
  end.

Definition array_index (key : string) : option N :=
  match key with
  | EmptyString => None
  | String c rest =>
      if Ascii.eqb c "0" && negb (String.eqb rest "") then None
      else match numeral key 0 with
           | Some n => if (n <? 4294967295)%N then Some n else None
           | None => None
           end
  end.

Definition is_index (key : string) : bool :=
  match array_index key with
  | Some _ => true
  | None => false
  end.

(** [Object.values(o)], for the own properties of [o] in the order in
    which they were created: the values under array indices come first,
    by ascending index, then the others in creation order. *)
Fixpoint insert_by_index {A} (x : N * A) (l : list (N * A)) : list (N * A) :=
  match l with
  | [] => [x]
  | y :: l' => if (x.1 <=? y.1)%N then x :: l else y :: insert_by_index x l'
  end.

Definition Object_values {A} (name : A → string) (own : list A) : list A :=
  (List.map snd
     (foldr insert_by_index []
        (omap (λ a, (λ i, (i, a)) <$> array_index (name a)) own))
   ++ List.filter (λ a, negb (is_index (name a))) own)%list.

(** An entry [{name, count, certs: [{name, country}]}] of the sectors
    view. *)
Record SectorGroup := mkSectorGroup {
  sg_name : string;
  sg_count : nat;
  sg_certs : list (string * string)
}.

(** The accumulator of the reduce is the list of its own properties,
    each a group stored under its name.  [has_own acc key] tells whether
    [acc] has an own property [key]. *)
Definition has_own (acc : list SectorGroup) (key : string) : bool :=
  existsb (λ g, String.eqb (sg_name g) key) acc.

(** [acc[cert.sector].count++; acc[cert.sector].certs.push({name,
    country})] on an own group. *)
Definition bump (acc : list SectorGroup) (cert : Cert) : list SectorGroup :=
  List.map
    (λ g, if String.eqb (sg_name g) (sector cert)
          then mkSectorGroup (sg_name g) (S (sg_count g))
                 (sg_certs g ++ [(name cert, country cert)])
          else g)
    acc.

(** One call of the callback of the reduce.  [acc[cert.sector]] is
    truthy when the group exists and also when the name is inherited;
    in the latter case no group is made, [acc[cert.sector]] is the
    inherited member, its [certs] is [undefined] and [.push] throws a
    [TypeError]: [None]. *)
Definition sectors_step (acc : list SectorGroup) (cert : Cert)
  : option (list SectorGroup) :=
  let acc :=
    if has_own acc (sector cert) || inherited (sector cert) then acc
    else (acc ++ [mkSectorGroup (sector cert) 0 []])%list in
  if has_own acc (sector cert) then Some (bump acc cert) else None.

Fixpoint sectors_reduce (acc : list SectorGroup) (certs : list Cert)
  : option (list SectorGroup) :=
  match certs with
  | [] => Some acc
  | cert :: certs' =>
      match sectors_step acc cert with
      | Some acc' => sectors_reduce acc' certs'
      | None => None
      end
  end.

(** [Object.values(certs.reduce(.., {}))]; [None] when the reduce
    throws. *)
Definition sectors (certs : list Cert) : option (list SectorGroup) :=
  Object_values sg_name <$> sectors_reduce [] certs.

(** A value of [sectorsCount]: a count, or, under an inherited name,
    the text that [+ 1] makes of the inherited function: its source
    text followed by as many [1]s as there are records of that name. *)
Inductive Tally :=
| Count (n : nat)
| SourceText (ones : nat).

(** [acc[cert.sector] = (acc[cert.sector] || 0) + 1].  Under the name
    [__proto__] the assignment of a string is ignored. *)
Definition tally_step (acc : gmap string Tally) (cert : Cert) : gmap string Tally :=
  let key := sector cert in
  match acc !! key with
  | Some (Count n) => <[key := Count (S n)]> acc
  | Some (SourceText ones) => <[key := SourceText (S ones)]> acc
  | None =>
      if String.eqb key "__proto__" then acc
      else if inherited key then <[key := SourceText 1]> acc
      else <[key := Count 1]> acc
  end.

Record Stats := mkStats {
  totalCerts : nat;
  totalCountries : nat;
  sectorsCount : gmap string Tally;
  pgpEnabled : nat;
  st_lastUpdated : Z;
  verificationRate : string
}.

Definition getStats (parse : string → option Z) (certs : list Cert) : Stats :=
  mkStats
    (List.length certs)
    (List.length (new_Set (List.map country certs)))
    (fold_left tally_step certs ∅)
    (List.length (List.filter Query.pgp_pred certs))
    (fold_left
       (λ latest cert,
          match parse (lastUpdated cert) with
          | Some certDate => if latest <? certDate then certDate else latest
          | None => latest
          end)
       certs 0)
    "100%".

(** [Math.max(...certs.map(c => new Date(c.lastUpdated).getTime()))]
    of a non-empty array that fits an argument list: [None] stands for
    [NaN]. *)
Definition lastUpdate (parse : string → option Z) (certs : list Cert) : option Z :=
  fold_left
    (λ acc cert,
       match acc, parse (lastUpdated cert) with
       | Some m, Some t => Some (Z.max m t)
       | _, _ => None
       end)
    (List.tl certs)
    (match certs with
     | c :: _ => parse (lastUpdated c)
     | [] => None
     end).

(** The objects the handler serialises. *)
Inductive Json :=
| JError (e : ErrorJson)
| JInternalError (e : ErrorJson) (timestamp : Z)
| JCerts (data : list Cert) (total : nat) (filters : list (string * string))
| JStats (data : Stats)
| JCountries (data : list CountryEntry)
| JSectors (data : list SectorGroup)
| JHealth (timestamp : Z) (version : string) (certsLoaded : nat)
          (lastUpdate : option Z).

Definition corsHeaders : Headers :=
  list_to_map [
    ("Access-Control-Allow-Origin", CORS_ORIGIN);
    ("Access-Control-Allow-Headers", "Content-Type, Authorization");
    ("Access-Control-Allow-Methods", "GET, POST, OPTIONS");
    ("Access-Control-Max-Age", "86400")
  ].

Definition securityHeaders : Headers :=
  list_to_map [
    ("X-Content-Type-Options", "nosniff");
    ("X-Frame-Options", "DENY");
    ("X-XSS-Protection", "1; mode=block")
  ].

(** [queryParams.get(name)]: the first value given for [name]. *)
Fixpoint query_get (q : list (string * string)) (k : string) : option string :=
  match q with
  | [] => None
  | (k', v) :: q' => if String.eqb k' k then Some v else query_get q' k
  end.

Definition parse_filters (q : list (string * string)) : Filters :=
  mkFilters (query_get q "search") (query_get q "sector")
            (query_get q "country") (query_get q "pgp").

(** The entries of [filters] whose value is not [null]. *)
Definition supplied (filters : Filters) : list (string * string) :=
  omap (λ kv : string * option string, (λ v, (kv.1, v)) <$> kv.2)
    [("search", f_search filters); ("sector", f_sector filters);
     ("country", f_country filters); ("pgp", f_pgp filters)].

Definition jsonHeaders : Headers :=
  spread (spread {["Content-Type" := "application/json"]} corsHeaders) securityHeaders.

Definition ok (apiPath : string) (response : Json) : Response Json :=
  mkResponse 200
    (spread (spread
       (<["Cache-Control" := if String.eqb apiPath "/health" then "no-cache"
                             else "public, max-age=300"]>
          {["Content-Type" := "application/json"]})
       corsHeaders) securityHeaders)
    (BodyJson response) None.

(** The response of the [catch] block. *)
Definition unexpected (timestamp : Z) : Response Json :=
  mkResponse 500 jsonHeaders
    (BodyJson (JInternalError
       (mkErrorJson "Internal Server Error" "An unexpected error occurred")
       timestamp))
    None.

Definition internal_error : M (Response Json) :=
  let* t := Date_now in
  eff_ret (unexpected t).

(** [rawPath.replace('/api', '') || '/'] *)
Definition api_path (rawPath : string) : string :=
  let p := replace rawPath "/api" "" in
  if truthy p then p else "/".

Definition data_unavailable : Response Json :=
  mkResponse 500 jsonHeaders
    (BodyJson (JError (mkErrorJson "Data Unavailable"
                         "CERT data could not be loaded")))
    None.

(** The response of the [default] case of the [switch]. *)
Definition not_found (apiPath : string) : Response Json :=
  mkResponse 404 jsonHeaders
    (BodyJson (JError (mkErrorJson "Not Found"
                 ("API endpoint " ++ apiPath ++ " not found"))))
    None.

Section Routes.

Context {folding : CaseFolding}.

(** The [switch] on [apiPath] and the response built after it; [None]
    when a statement of the [switch] throws. *)
Definition route (apiPath : string) (filters : Filters) (certs : list Cert)
  : M (option (Response Json)) :=
  if String.eqb apiPath "/" || String.eqb apiPath "/certs" then
    let filteredCerts := Query.filterCerts certs filters in
    eff_ret (Some (ok apiPath
      (JCerts filteredCerts (List.length filteredCerts) (supplied filters))))
  else if String.eqb apiPath "/stats" then
    let* e := ask in
    eff_ret (Some (ok apiPath (JStats (getStats (dateParse e) certs))))
  else if String.eqb apiPath "/countries" then
    eff_ret (Some (ok apiPath (JCountries (countries certs))))
  else if String.eqb apiPath "/sectors" then
    match sectors certs with
    | Some data => eff_ret (Some (ok apiPath (JSectors data)))
    | None => eff_ret None
    end
  else if String.eqb apiPath "/health" then
    let* t := Date_now in
    let* e := ask in
    if (spreadLimit e <? List.length certs)%nat then eff_ret None
    else
      eff_ret (Some (ok apiPath
        (JHealth t
           (if truthy_opt (API_VERSION e) then default "" (API_VERSION e) else "1.0")
           (List.length certs)
           (lastUpdate (dateParse e) certs))))
  else
    eff_ret (Some (not_found apiPath)).

(** [exports.handler].  An event without [requestContext.http] or
    without [rawPath] makes the first statements of the [try] throw;
    the [catch] turns that, and an exception of the [switch], into the
    Internal Server Error response.  The call of [validateCertData]
    only logs and is left out. *)
Definition handler (event : Event) : M (Response Json) :=
  match ev_method event, ev_rawPath event with
  | Some method, Some rawPath =>
      let apiPath := api_path rawPath in
      let filters := parse_filters (ev_query event) in
      if String.eqb method "OPTIONS" then
        eff_ret (mkResponse 200 (spread corsHeaders securityHeaders)
                   (BodyLiteral "") None)
      else if negb (String.eqb method "GET") then
        eff_ret (mkResponse 405 jsonHeaders
          (BodyJson (JError (mkErrorJson "Method Not Allowed"
                       ("HTTP method " ++ method ++ " is not supported"))))
          None)
      else
        let* certs := loadCertData in
        if (List.length certs =? 0)%nat then eff_ret data_unavailable
        else
          let* response := route apiPath filters certs in
          match response with
          | Some response => eff_ret response
          | None => internal_error
          end
  | _, _ => internal_error
  end.

End Routes.

(** The records a response of the [/certs] route carries. *)
Definition data_of (r : Response Json) : option (list Cert) :=
  match body r with
  | BodyJson (JCerts data _ _) => Some data
  | _ => None
  end.

(** A query string without its [pgp] parameters. *)
Definition without_pgp (q : list (string * string)) : list (string * string) :=
  List.filter (λ kv, negb (String.eqb kv.1 "pgp")) q.

(** The outcome of a load that reads the data file: the records read
    and stored under the current clock reading, or the empty array and
    the bindings as they were. *)
Definition after_reload (e : Env) (s : State) : list Cert * State :=
  match dataFile e with
  | Some data =>
      (data, mkState (Some data) (clock e (ticks s)) (S (ticks s)) (S (reads s)))
  | None =>
      ([], mkState (certData s) (certDataTimestamp s) (S (ticks s)) (S (reads s)))
  end.

(** The cached dataset that a load at this moment answers with. *)
Definition fresh (e : Env) (s : State) : option (list Cert) :=
  match certData s with
  | Some data =>
      if clock e (ticks s) - certDataTimestamp s <? CACHE_TTL then Some data
      else None
  | None => None
  end.

(** The cached dataset agrees with the data file. *)
Definition coherent (e : Env) (s : State) : Prop :=
  ∀ data, certData s = Some data → dataFile e = Some data.

(** [validateCertData(data)], on records of the data model: there
    every required field is present and not [null], and what is left of
    the test of a record is the test of its [pgpKey]:
    [cert.pgpKey && typeof cert.pgpKey.available === 'boolean' &&
    (cert.pgpKey.available === false || (cert.pgpKey.keyId && ..))]. *)
Definition hasValidPgpKey (cert : Cert) : bool :=
  match pgpKey cert with
  | Some k => negb (available k) || truthy_opt (keyId k)
  | None => false
  end.

Definition validateCertData (data : list Cert) : bool :=
  forallb hasValidPgpKey data.

(** The paths of the [switch]. *)
Definition API_PATHS : list string :=
  ["/"; "/certs"; "/stats"; "/countries"; "/sectors"; "/health"].

End Api.

(** ** [lambda/healthcheck.js] *)

Module Health.

(** The payloads, without the process metadata (timestamps, memory,
    uptime, environment names) that the handler copies into them. *)
Inductive Json :=
| JHealthData (status : string) (dataFileOk : bool)
| JMethodNotAllowed
| JUnhealthy.

Definition corsHeaders : Headers :=
  list_to_map [
    ("Access-Control-Allow-Origin", "*");
    ("Access-Control-Allow-Headers", "Content-Type");
    ("Access-Control-Allow-Methods", "GET, OPTIONS")
  ].

Definition securityHeaders : Headers :=
  list_to_map [
    ("X-Content-Type-Options", "nosniff");
    ("X-Frame-Options", "DENY")
  ].

(** [exports.handler]; [statOk] tells whether [fs.statSync] of the
    data file succeeds. *)
Definition handler (statOk : bool) (event : Event) : Response Json :=
  match ev_method event with
  | None =>
      mkResponse 500
        (spread (spread {["Content-Type" := "application/json"]} corsHeaders)
                securityHeaders)
        (BodyJson JUnhealthy) None
  | Some method =>
      if String.eqb method "OPTIONS" then
        mkResponse 200 (spread corsHeaders securityHeaders) (BodyLiteral "") None
      else if negb (String.eqb method "GET") then
        mkResponse 405
          (spread (spread {["Content-Type" := "application/json"]} corsHeaders)
                  securityHeaders)
          (BodyJson JMethodNotAllowed) None
      else
        let status := if statOk then "healthy" else "degraded" in
        let hasErrors := negb statOk in
        let status := if hasErrors && String.eqb status "healthy"
                      then "degraded" else status in
        mkResponse (if String.eqb status "healthy" then 200 else 503)
          (spread (spread
             (<["Cache-Control" := "no-cache, no-store, must-revalidate"]>
                {["Content-Type" := "application/json"]})
             corsHeaders) securityHeaders)
          (BodyJson (JHealthData status statOk)) None
  end.

End Health.

(** ** Arrays and records as heap objects

    [filterCerts] receives a reference to an array of references to
    records.  The heap keeps the records and the arrays apart; an address
    is an index into the store of its kind, and allocation appends. *)

Module Heap.

Definition loc := nat.

Record heap := mkHeap {
  records : list Cert;
  arrays : list (list loc)
}.

(** A computation on the heap; [None] is a read through a dangling
    reference. *)
Definition H (A : Type) : Type := heap → option (A * heap).

Definition h_ret {A} (a : A) : H A := λ h, Some (a, h).

Definition h_bind {A B} (m : H A) (k : A → H B) : H B :=
  λ h, match m h with
       | Some (a, h') => k a h'
       | None => None
       end.

Notation "'do*' x ':=' m 'in' k" := (h_bind m (λ x, k))
  (at level 10, x name, m at level 100, k at level 200).

Definition read_array (a : loc) : H (list loc) :=
  λ h, match arrays h !! a with
       | Some l => Some (l, h)
       | None => None
       end.

Definition read_record (r : loc) : H Cert :=
  λ h, match records h !! r with
       | Some c => Some (c, h)
       | None => None
       end.

Definition alloc_array (l : list loc) : H loc :=
  λ h, Some (List.length (arrays h), mkHeap (records h) (arrays h ++ [l])).

(** The elements of [l] on which the callback holds, in order. *)
Fixpoint keep (p : Cert → bool) (l : list loc) : H (list loc) :=
  match l with
  | [] => h_ret []
  | r :: l' =>
      do* cert := read_record r in
      do* rest := keep p l' in
      h_ret (if p cert then r :: rest else rest)
  end.

(** [a.filter(p)] *)
Definition array_filter (p : Cert → bool) (a : loc) : H loc :=
  do* l := read_array a in
  do* kept := keep p l in
  alloc_array kept.

(** [[...a]] *)
Definition array_copy (a : loc) : H loc :=
  do* l := read_array a in
  alloc_array l.

Section Pipeline.

Context {folding : CaseFolding}.

Definition filterCerts (certs : loc) (filters : Filters) : H loc :=
  do* filtered := array_copy certs in
  do* filtered :=
    (if Query.search_on filters
     then let searchTerm := toLowerCase (Query.str (f_search filters)) in
          array_filter (Query.search_pred searchTerm) filtered
     else h_ret filtered) in
  do* filtered :=
    (if Query.sector_on filters
     then array_filter (Query.sector_pred (Query.str (f_sector filters))) filtered
     else h_ret filtered) in
  do* filtered :=
    (if Query.country_on filters
     then array_filter (Query.country_pred (Query.str (f_country filters))) filtered
     else h_ret filtered) in
  do* filtered :=
    (if Query.pgp_on filters
     then array_filter Query.pgp_pred filtered
     else h_ret filtered) in
  h_ret filtered.

End Pipeline.

(** The array of references [l] stands for the records [cs] in [h]. *)
Definition denotes (h : heap) (l : list loc) (cs : list Cert) : Prop :=
  Forall2 (λ r c, records h !! r = Some c) l cs.

(** [h'] is [h] with some arrays allocated: the records and the arrays
    of [h] are as they were. *)
Definition extends (h h' : heap) : Prop :=
  records h' = records h ∧ ∃ new, arrays h' = (arrays h ++ new)%list.

End Heap.

(** ** The specification's vocabulary *)

Module Spec.

Section Insensitive.

Context {folding : CaseFolding}.

(** [a] contains [b], case-insensitively. *)
Definition contains_ci (a b : string) : Prop :=
  ∃ pre post, toLowerCase a = pre ++ toLowerCase b ++ post.

(** [a] equals [b], case-insensitively. *)
Definition equals_ci (a b : string) : Prop :=
  toLowerCase a = toLowerCase b.

Definition search_matches (term : string) (cert : Cert) : Prop :=
  contains_ci (country cert) term ∨ contains_ci (name cert) term ∨
  contains_ci (fullName cert) term ∨ contains_ci (sector cert) term ∨
  contains_ci (description cert) term.

End Insensitive.

(** [pgpKey.available] is true. *)
Definition pgp_available (cert : Cert) : Prop :=
  ∃ k, pgpKey cert = Some k ∧ available k = true.

(** The PGP filter is active. *)
Definition pgpOnly (filters : Filters) : Prop := f_pgp filters = Some "true".

Section Selection.

Context {folding : CaseFolding}.

(** The conjunction of the supplied filters, where a filter is
    supplied when its parameter is present. *)
Definition selects_supplied (filters : Filters) (cert : Cert) : Prop :=
  (∀ s, f_search filters = Some s → search_matches s cert) ∧
  (∀ s, f_sector filters = Some s → s ≠ "all" → equals_ci (sector cert) s) ∧
  (∀ s, f_country filters = Some s → equals_ci (country cert) s) ∧
  (pgpOnly filters → pgp_available cert).

(** The same, where the sector and country filters are supplied when
    their parameter is present and not empty. *)
Definition selects (filters : Filters) (cert : Cert) : Prop :=
  (∀ s, f_search filters = Some s → search_matches s cert) ∧
  (∀ s, f_sector filters = Some s → s ≠ "" → s ≠ "all" →
        equals_ci (sector cert) s) ∧
  (∀ s, f_country filters = Some s → s ≠ "" → equals_ci (country cert) s) ∧
  (pgpOnly filters → pgp_available cert).

End Selection.

(** A textual content type. *)
Definition textual (contentType : string) : Prop :=
  (∃ post, contentType = "text/" ++ post) ∨
  (∃ pre post, contentType = pre ++ "javascript" ++ post) ∨
  (∃ pre post, contentType = pre ++ "json" ++ post).







(** [s] comes no later than [t] in the dictionary order of strings,
    their characters compared by code. *)
Inductive alphabetical : string → string → Prop :=
| alpha_empty (t : string) : alphabetical "" t
| alpha_less (a b : ascii) (s t : string) :
    (N_of_ascii a < N_of_ascii b)%N → alphabetical (String a s) (String b t)
| alpha_same (a : ascii) (s t : string) :
    alphabetical s t → alphabetical (String a s) (String a t).

(** The number of distinct values of a list of strings. *)
Definition distinct (xs : list string) : nat :=
  size (list_to_set xs : gset string).

End Spec.

(** ** Sample data *)

Module Sample.

Definition canada : Cert :=
  mkCert "Canada" "CCCS" "Canadian Centre for Cyber Security"
    "https://www.cyber.gc.ca" "+1-833-292-3788" "contact@cyber.gc.ca" 2018
    "National authority on cyber security" "Government" true "2024-01-15"
    (Some (mkPgpKey false None None)).

Definition japan : Cert :=
  mkCert "Japan" "JPCERT/CC" "Japan Computer Emergency Response Team"
    "https://www.jpcert.or.jp" "+81-3-6271-8901" "info@jpcert.or.jp" 1996
    "Coordination centre for incidents in Japan" "National" true "2024-02-01"
    (Some (mkPgpKey true (Some "0x69ECE048") None)).

Definition certs : list Cert := [canada; japan].

Definition get (rawPath : string) (q : list (string * string)) : Event :=
  mkEvent (Some "GET") (Some rawPath) q.

(** A clock that advances by a second per reading. *)
Definition second_clock (n : nat) : Z := 1000 * Z.of_nat n.

Definition api_env (file : option (list Cert)) : Api.Env :=
  Api.mkEnv second_clock file (λ _, None) None 1000.

Definition png : Buffer := [Byte.x89; Byte.x50; Byte.x4e; Byte.x47].
Definition css : Buffer := [Byte.x61; Byte.x7b; Byte.x7d].
Definition html : Buffer := [Byte.x3c; Byte.x70; Byte.x3e].
Definition json : Buffer := [Byte.x5b; Byte.x5d].

Definition site : string → option Buffer :=
  λ filePath,
    if String.eqb filePath "dist/index.html" then Some html
    else if String.eqb filePath "dist/css/style.css" then Some css
    else if String.eqb filePath "dist/logo.png" then Some png
    else if String.eqb filePath "dist/data/certs.json" then Some json
    else None.

Definition static_env : Static.Env := Static.mkEnv second_clock site.

Definition empty_disk : Static.Env := Static.mkEnv second_clock (λ _, None).

(** The static cache holding the root document, stored at time [t]. *)
Definition cached_index (t : Z) : Static.State :=
  Static.mkState {["dist/index.html" := Static.mkCacheEntry html t]} 1
    ["dist/index.html"].

(** The dataset cache holding the sample records, stored at time [t]. *)
Definition cached_certs (t : Z) : Api.State :=
  Api.mkState (Some certs) t 1 1.

End Sample.

(** ** [scripts/validate-json.js]: the checks of the whole dataset *)

Module Validate.

(** The result [{valid: true}] or [{valid: false, error}], the error
    kept as the position and the two countries it names. *)
Inductive OrderCheck :=
| OrderValid
| OrderInvalid (position : nat) (expected found : string).

(** The loop of [validateAlphabeticalOrder] from index [i] on.  The
    sorted copy is as long as the list, so the case of a missing
    element of the copy does not occur. *)
Fixpoint first_difference (i : nat) (countries sortedCountries : list string)
  : OrderCheck :=
  match countries, sortedCountries with
  | c :: countries', s :: sortedCountries' =>
      if String.eqb c s then first_difference (S i) countries' sortedCountries'
      else OrderInvalid i s c
  | c :: _, [] => OrderInvalid i "undefined" c
  | [], _ => OrderValid
  end.

Definition validateAlphabeticalOrder (certs : list Cert) : OrderCheck :=
  let countries := List.map country certs in
  let sortedCountries := Api.sort countries in
  first_difference 0 countries sortedCountries.

(** The key [`${cert.country}-${cert.name}`]. *)
Definition entry_key (cert : Cert) : string :=
  country cert ++ "-" ++ name cert.

(** The [forEach] of [validateUniqueEntries] from index [index] on,
    with the set [seen]; a duplicate is kept as its index and key. *)
Fixpoint unique_loop (index : nat) (seen : list string) (certs : list Cert)
  : list (nat * string) :=
  match certs with
  | [] => []
  | cert :: certs' =>
      let key := entry_key cert in
      if decide (key ∈ seen)
      then (index, key) :: unique_loop (S index) seen certs'
      else unique_loop (S index) (Api.Set_add seen key) certs'
  end.

Definition validateUniqueEntries (certs : list Cert) : list (nat * string) :=
  unique_loop 0 [] certs.

End Validate.

(** ** The browser script: filtering the directory on the page *)

Module Browser.

Section Page.

Context {folding : CaseFolding}.

(** The two tests of the callback of [applyFilters]; [search] and
    [sector] are the values of the two inputs, empty when unset. *)
Definition matchesSearch (search : string) (cert : Cert) : bool :=
  negb (truthy search) ||
  includes (toLowerCase (country cert)) (toLowerCase search) ||
  includes (toLowerCase (name cert)) (toLowerCase search) ||
  includes (toLowerCase (fullName cert)) (toLowerCase search) ||
  includes (toLowerCase (sector cert)) (toLowerCase search).

Definition matchesSector (sector_value : string) (cert : Cert) : bool :=
  negb (truthy sector_value) || String.eqb (sector cert) sector_value.

(** The [filteredCerts] that [applyFilters] computes. *)
Definition applyFilters (certs : list Cert) (search sector_value : string)
  : list Cert :=
  List.filter (λ cert, matchesSearch search cert && matchesSector sector_value cert)
    certs.

End Page.

End Browser.

(** ** Further vocabulary *)

Module Notions.

(** A file name: not empty, no separator, neither [.] nor [..]. *)
Definition plain_name (x : string) : Prop :=
  x ≠ "" ∧ x ≠ "." ∧ x ≠ ".." ∧ includes x "/" = false.

(** The number of records of a sector, and of a country. *)
Definition in_sector (s : string) (certs : list Cert) : nat :=
  List.length (filter (λ cert, sector cert = s) certs).

Definition in_country (c : string) (certs : list Cert) : nat :=
  List.length (filter (λ cert, country cert = c) certs).

(** The sum of the values of a map of counts. *)
Definition total (m : gmap string nat) : nat :=
  map_fold (λ _ n acc, (n + acc)%nat) 0%nat m.

Section Matching.

Context {folding : CaseFolding}.

(** The record itself decides what a filter object selects. *)
Definition matches (filters : Filters) (cert : Cert) : bool :=
  (negb (Query.search_on filters)
   || Query.search_pred (toLowerCase (Query.str (f_search filters))) cert)
  && (negb (Query.sector_on filters)
      || Query.sector_pred (Query.str (f_sector filters)) cert)
  && (negb (Query.country_on filters)
      || Query.country_pred (Query.str (f_country filters)) cert)
  && (negb (Query.pgp_on filters) || Query.pgp_pred cert).

End Matching.

(** The two ways in which the [switch] of the API handler throws: the
    [/sectors] route on a record whose sector is a name that objects
    inherit, and the [/health] route on more records than a call takes
    arguments. *)
Definition throws (apiPath : string) (certs : list Cert) (e : Api.Env) : bool :=
  (String.eqb apiPath "/sectors"
   && existsb (λ cert, Api.inherited (sector cert)) certs)
  || (String.eqb apiPath "/health"
      && (Api.spreadLimit e <? List.length certs)%nat).

(** The strings that the pipeline lowers are ASCII strings: the five
    fields of a record that it reads, and the three parameters. *)
Definition ascii_cert (cert : Cert) : bool :=
  is_ascii (country cert) && is_ascii (name cert) && is_ascii (fullName cert)
  && is_ascii (sector cert) && is_ascii (description cert).

Definition ascii_filters (filters : Filters) : bool :=
  is_ascii (Query.str (f_search filters))
  && is_ascii (Query.str (f_sector filters))
  && is_ascii (Query.str (f_country filters)).

(** The segments that [normalizeString] keeps when none is [..]. *)
Definition kept_segment (seg : string) : bool :=
  negb (String.eqb seg "" || String.eqb seg ".").

End Notions.

(** * Properties *)

(** Case analysis on the conditions of the [if]s of the goal, closing
    each branch with [tac] where it can. *)
Ltac case_ifs tac :=
  repeat (match goal with
          | |- context [if ?b then _ else _] => destruct b
          end; simpl; try tac).

(** Refutes the membership of a string in a list of other strings. *)
Ltac not_in_list :=
  let H := fresh "Hin" in
  intros H;
  repeat (apply elem_of_cons in H as [H|H]; [congruence || discriminate H|]);
  by apply elem_of_nil in H.

(** ** Strings *)

Section StringFacts.

Lemma truthy_true (s : string) : truthy s = true ↔ s ≠ "".
Proof. destruct s; simpl; split; intros; congruence. Qed.

Lemma append_String (a : ascii) (s t : string) :
  String a s ++ t = String a (s ++ t).
Proof. reflexivity. Qed.

Lemma startsWith_spec (s p : string) :
  startsWith s p = true ↔ ∃ post, s = p ++ post.
Proof.
  revert s. induction p as [|b p IH]; intros s; simpl.
  - split; [intros _; by exists s | done].
  - destruct s as [|a s].
    + split; [done | intros [post Hpost]; discriminate].
    + destruct (Ascii.eqb a b) eqn:Hab.
      * apply Ascii.eqb_eq in Hab as ->. rewrite IH.
        split; intros [post Hpost]; exists post;
          rewrite append_String in *; congruence.
      * apply Ascii.eqb_neq in Hab.
        split; [done | intros [post Hpost]].
        rewrite append_String in Hpost. congruence.
Qed.

Lemma includes_spec (s t : string) :
  includes s t = true ↔ ∃ pre post, s = pre ++ t ++ post.
Proof.
  induction s as [|a s IH]; simpl; rewrite orb_true_iff, startsWith_spec.
  - split.
    + intros [[post Hpost] | ?]; [by exists "", post | done].
    + intros [pre [post Hpost]]. left.
      destruct pre; [by exists post | discriminate].
  - rewrite IH. split.
    + intros [[post Hpost] | [pre [post Hpost]]].
      * by exists "", post.
      * exists (String a pre), post. by rewrite append_String, Hpost.
    + intros [pre [post Hpost]]. destruct pre as [|c pre].
      * left. by exists post.
      * right. exists pre, post. rewrite append_String in Hpost. congruence.
Qed.

End StringFacts.

Section FoldingFacts.

Context {folding : CaseFolding}.

Lemma toLowerCase_nil : toLowerCase "" = "".
Proof. by rewrite toLowerCase_ascii. Qed.

Lemma toLowerCase_truthy (s : string) : truthy (toLowerCase s) = truthy s.
Proof.
  destruct s as [|c s]; [by rewrite toLowerCase_nil|].
  destruct (toLowerCase (String c s)) eqn:Hlow; [|done].
  by apply toLowerCase_empty in Hlow.
Qed.

End FoldingFacts.

(** ** The filter pipeline *)

Section FilterFacts.

Context {folding : CaseFolding}.

Import Query Spec.

Lemma In_guarded_filter (g : bool) (p : Cert → bool) (l : list Cert) (c : Cert) :
  In c (if g then List.filter p l else l) ↔ In c l ∧ (g = true → p c = true).
Proof.
  destruct g.
  - rewrite filter_In. intuition.
  - intuition discriminate.
Qed.

Lemma search_pred_spec (s : string) (c : Cert) :
  search_pred (toLowerCase s) c = true ↔ search_matches s c.
Proof.
  unfold search_pred, search_matches, contains_ci.
  rewrite !orb_true_iff, !includes_spec. tauto.
Qed.

Lemma search_matches_empty (c : Cert) : search_matches "" c.
Proof. left. exists "", (toLowerCase (country c)). by rewrite toLowerCase_nil. Qed.

Lemma sector_pred_spec (s : string) (c : Cert) :
  sector_pred s c = true ↔ equals_ci (sector c) s.
Proof. unfold sector_pred, equals_ci. apply String.eqb_eq. Qed.

Lemma country_pred_spec (s : string) (c : Cert) :
  country_pred s c = true ↔ equals_ci (country c) s.
Proof. unfold country_pred, equals_ci. apply String.eqb_eq. Qed.

Lemma pgp_pred_spec (c : Cert) : pgp_pred c = true ↔ pgp_available c.
Proof.
  unfold pgp_pred, pgp_available. destruct (pgpKey c) as [k|].
  - split; [intros Hk; by exists k | intros [k' [[= <-] Hk]]; done].
  - split; [done | intros [k' [[=] _]]].
Qed.

Lemma search_clause (filters : Filters) (c : Cert) :
  (search_on filters = true →
   search_pred (toLowerCase (str (f_search filters))) c = true)
  ↔ (∀ s, f_search filters = Some s → search_matches s c).
Proof.
  unfold search_on. destruct (f_search filters) as [s|]; simpl.
  - rewrite search_pred_spec. split.
    + intros Hs s' [= <-]. destruct s; [apply search_matches_empty | by apply Hs].
    + intros Hs _. by apply Hs.
  - naive_solver.
Qed.

Lemma sector_clause (filters : Filters) (c : Cert) :
  (sector_on filters = true → sector_pred (str (f_sector filters)) c = true)
  ↔ (∀ s, f_sector filters = Some s → s ≠ "" → s ≠ "all" →
          equals_ci (sector c) s).
Proof.
  unfold sector_on. destruct (f_sector filters) as [s|]; simpl.
  - rewrite sector_pred_spec, andb_true_iff, negb_true_iff,
      bool_decide_eq_false, truthy_true.
    split.
    + intros Hs s' [= <-] Hne Hall. apply Hs. split; [done | congruence].
    + intros Hs [Hne Hall]. apply Hs; [done | done | congruence].
  - naive_solver.
Qed.

Lemma country_clause (filters : Filters) (c : Cert) :
  (country_on filters = true → country_pred (str (f_country filters)) c = true)
  ↔ (∀ s, f_country filters = Some s → s ≠ "" → equals_ci (country c) s).
Proof.
  unfold country_on. destruct (f_country filters) as [s|]; simpl.
  - rewrite country_pred_spec, truthy_true. naive_solver.
  - naive_solver.
Qed.

Lemma pgp_clause (filters : Filters) (c : Cert) :
  (pgp_on filters = true → pgp_pred c = true)
  ↔ (pgpOnly filters → pgp_available c).
Proof.
  unfold pgp_on, pgpOnly. by rewrite bool_decide_eq_true, pgp_pred_spec.
Qed.

Lemma In_filterCerts (certs : list Cert) (filters : Filters) (c : Cert) :
  In c (filterCerts certs filters) ↔ In c certs ∧ selects filters c.
Proof.
  unfold filterCerts, selects.
  rewrite !In_guarded_filter, search_clause, sector_clause, country_clause,
    pgp_clause.
  tauto.
Qed.

Lemma filter_guarded {A} (g : bool) (p : A → bool) (l : list A) :
  (if g then List.filter p l else l) = List.filter (λ x, negb g || p x) l.
Proof.
  destruct g; simpl; [done|]. induction l as [|x l IH]; simpl; congruence.
Qed.

Lemma filter_twice {A} (p q : A → bool) (l : list A) :
  List.filter p (List.filter q l) = List.filter (λ x, q x && p x) l.
Proof.
  induction l as [|x l IH]; simpl; [done|].
  destruct (q x); simpl; [|done]. destruct (p x); congruence.
Qed.

Lemma filter_pointwise {A} (p q : A → bool) (l : list A) :
  (∀ x, In x l → p x = q x) → List.filter p l = List.filter q l.
Proof.
  induction l as [|x l IH]; simpl; intros Hpq; [done|].
  rewrite (Hpq x) by by left. rewrite IH by (intros y Hy; apply Hpq; by right).
  done.
Qed.

Lemma filter_sublist_weaker {A} (p q : A → bool) (l : list A) :
  (∀ x, p x = true → q x = true) →
  sublist (List.filter p l) (List.filter q l).
Proof.
  intros Hpq. induction l as [|x l IH]; simpl; [constructor|].
  destruct (p x) eqn:Hp.
  - rewrite (Hpq x Hp). by constructor.
  - destruct (q x); [by constructor | done].
Qed.

(** The pipeline is one filter by [matches]. *)
Lemma filterCerts_matches (certs : list Cert) (filters : Filters) :
  filterCerts certs filters = List.filter (Notions.matches filters) certs.
Proof.
  unfold filterCerts, Notions.matches. rewrite !filter_guarded, !filter_twice.
  apply filter_pointwise. intros x _. by rewrite !andb_assoc.
Qed.

End FilterFacts.

Section FilterAscii.

Context {folding : CaseFolding}.

Import Query.

Lemma matches_ascii (filters : Filters) (cert : Cert) :
  Notions.ascii_filters filters = true → Notions.ascii_cert cert = true →
  Notions.matches filters cert = Notions.matches (folding := ascii_folding) filters cert.
Proof.
  unfold Notions.ascii_filters, Notions.ascii_cert. rewrite !andb_true_iff.
  intros [[Hsearch Hsector] Hcountry] [[[[Hc Hn] Hf] Hs] Hd].
  unfold Notions.matches, search_pred, sector_pred, country_pred.
  by rewrite !toLowerCase_ascii.
Qed.

(** On ASCII records and ASCII parameters the pipeline does not depend
    on how letters outside ASCII are lowered. *)
Lemma filterCerts_ascii (certs : list Cert) (filters : Filters) :
  forallb Notions.ascii_cert certs = true →
  Notions.ascii_filters filters = true →
  filterCerts certs filters = filterCerts (folding := ascii_folding) certs filters.
Proof.
  intros Hcerts Hfilters.
  rewrite filterCerts_matches, (filterCerts_matches (folding := ascii_folding)).
  apply filter_pointwise. intros cert Hin.
  apply matches_ascii; [done|].
  rewrite forallb_forall in Hcerts. by apply Hcerts.
Qed.

End FilterAscii.

(** ** Runs of the API handler *)

Section ApiRun.

Context {folding : CaseFolding}.

Import Api.

(** What the [catch] makes of the outcome of the [switch]. *)
Lemma handler_GET (rawPath : string) (q : list (string * string))
    (e : Env) (s : State) :
  handler (mkEvent (Some "GET") (Some rawPath) q) e s
  = let '(certs, s') := loadCertData e s in
    if (List.length certs =? 0)%nat then (data_unavailable, s')
    else match route (api_path rawPath) (parse_filters q) certs e s' with
         | (Some response, s'') => (response, s'')
         | (None, s'') => internal_error e s''
         end.
Proof.
  unfold handler, eff_bind. simpl.
  destruct (loadCertData e s) as [certs s'].
  destruct (List.length certs =? 0)%nat; [done|].
  by destruct (route _ _ _ e s') as [[response|] s''].
Qed.

Lemma route_certs (filters : Filters) (certs : list Cert) (e : Env) (s : State) :
  route "/certs" filters certs e s
  = (Some (ok "/certs" (JCerts (Query.filterCerts certs filters)
                          (List.length (Query.filterCerts certs filters))
                          (supplied filters))), s).
Proof. reflexivity. Qed.

End ApiRun.

Section FilterClaims.

Context {folding : CaseFolding}.

Import Query Spec.

(** With the sector parameter present but empty, a record whose sector
    is not empty is not selected by the conjunction of the supplied
    filters, however letters are lowered. *)
Lemma empty_sector_not_selected (cert : Cert) :
  sector cert ≠ "" →
  ¬ selects_supplied (mkFilters None (Some "") None None) cert.
Proof.
  intros Hsector (_ & Hequal & _). apply Hsector.
  apply toLowerCase_empty. rewrite <- toLowerCase_nil.
  apply (Hequal "" eq_refl). discriminate.
Qed.

(** C1, as amended.  The steps of [filterCerts] compose with AND and a
    step whose parameter is absent imposes nothing: a record is in the
    output iff it is in the input and (when search is present) one of
    its country, name, fullName, sector or description contains the
    term case-insensitively, and (when sector is present, not empty
    and not the literal [all]) its sector equals the value
    case-insensitively, and (when country is present and not empty)
    its country equals the value case-insensitively, and (when [pgp] is
    [true]) its [pgpKey.available] is true.  Case-insensitively means:
    after [toLowerCase] of both strings, whatever that function does to
    letters outside ASCII.  With no parameter at all the input comes
    back, and so it does with sector and country present but empty.
    For the records of Canada (Government) and Japan (National),
    [GET /certs?sector=Government] answers exactly the Canada record
    with [total = 1]. *)
Theorem filterCerts_conjunction :
  (∀ (certs : list Cert) (filters : Filters) (cert : Cert),
      cert ∈ filterCerts certs filters ↔ cert ∈ certs ∧ selects filters cert)
  ∧ (∀ certs : list Cert, filterCerts certs (mkFilters None None None None) = certs)
  ∧ (∀ certs : list Cert,
       filterCerts certs (mkFilters None (Some "") (Some "") None) = certs)
  ∧ filterCerts Sample.certs (mkFilters None (Some "Government") None None)
    = [Sample.canada]
  ∧ body (Api.handler (Sample.get "/certs" [("sector", "Government")])
            (Sample.api_env (Some Sample.certs)) Api.initial).1
    = BodyJson (Api.JCerts [Sample.canada] 1 [("sector", "Government")]).
Proof.
  assert (Hexample : filterCerts Sample.certs
                       (mkFilters None (Some "Government") None None)
                     = [Sample.canada]).
  { rewrite filterCerts_ascii by reflexivity. vm_compute. reflexivity. }
  split; [|split; [|split; [|split]]].
  - intros certs filters cert. rewrite !list_elem_of_In. apply In_filterCerts.
  - reflexivity.
  - reflexivity.
  - exact Hexample.
  - unfold Sample.get. rewrite handler_GET.
    change (Api.loadCertData (Sample.api_env (Some Sample.certs)) Api.initial)
      with (Sample.certs, Api.mkState (Some Sample.certs) 0 1 1).
    change (Api.api_path "/certs") with "/certs".
    cbv beta iota. change (List.length Sample.certs =? 0)%nat with false.
    cbv iota. rewrite route_certs.
    change (Api.parse_filters [("sector", "Government")])
      with (mkFilters None (Some "Government") None None).
    rewrite Hexample. reflexivity.
Qed.

Lemma sublist_List_filter {A} (p : A → bool) (l : list A) :
  sublist (List.filter p l) l.
Proof.
  induction l as [|x l IH]; simpl.
  - constructor.
  - destruct (p x); by constructor.
Qed.

Lemma sublist_guarded_filter {A} (g : bool) (p : A → bool) (l : list A) :
  sublist (if g then List.filter p l else l) l.
Proof. destruct g; [apply sublist_List_filter | reflexivity]. Qed.

Lemma filterCerts_sublist (certs : list Cert) (filters : Filters) :
  sublist (filterCerts certs filters) certs.
Proof.
  unfold filterCerts.
  repeat (etrans; [apply sublist_guarded_filter|]). reflexivity.
Qed.

(** The steps before the PGP step. *)
Lemma filterCerts_pgp_step (certs : list Cert) (filters : Filters) :
  filterCerts certs filters
  = let rest := filterCerts certs
                  (mkFilters (f_search filters) (f_sector filters)
                             (f_country filters) None) in
    if pgp_on filters then List.filter pgp_pred rest else rest.
Proof. reflexivity. Qed.

End FilterClaims.

Section FilterClaimsExamples.

Import Query Spec.

(** C1 as stated fails: with the sector parameter present but empty
    ([/certs?sector=]) the Canada record is returned although its
    sector does not equal the empty value, however [toLowerCase] treats
    the letters outside ASCII. *)
Lemma filterCerts_empty_sector :
  (∀ folding : CaseFolding,
      Sample.canada
      ∈ filterCerts Sample.certs (mkFilters None (Some "") None None))
  ∧ (∀ folding : CaseFolding,
       ¬ selects_supplied (mkFilters None (Some "") None None) Sample.canada).
Proof.
  split; intros folding.
  - change (Sample.canada ∈ Sample.certs). by left.
  - apply empty_sector_not_selected. discriminate.
Qed.

End FilterClaimsExamples.

(** ** [filterCerts] on the heap *)

Section HeapFacts.

Context {folding : CaseFolding}.

Import Heap.

Lemma extends_refl (h : heap) : extends h h.
Proof. split; [done | exists []; by rewrite app_nil_r]. Qed.

Lemma extends_trans (h1 h2 h3 : heap) :
  extends h1 h2 → extends h2 h3 → extends h1 h3.
Proof.
  intros [Hr1 [n1 Ha1]] [Hr2 [n2 Ha2]]. split; [congruence|].
  exists (n1 ++ n2)%list. by rewrite Ha2, Ha1, app_assoc.
Qed.

Lemma extends_lookup (h h' : heap) (a : loc) (l : list loc) :
  extends h h' → arrays h !! a = Some l → arrays h' !! a = Some l.
Proof.
  intros [_ [new ->]] Hl. rewrite lookup_app_l; [done|].
  by apply lookup_lt_Some in Hl.
Qed.

Lemma extends_length (h h' : heap) :
  extends h h' → (List.length (arrays h) ≤ List.length (arrays h'))%nat.
Proof. intros [_ [new ->]]. rewrite length_app. lia. Qed.

Lemma denotes_extends (h h' : heap) (l : list loc) (cs : list Cert) :
  extends h h' → denotes h l cs → denotes h' l cs.
Proof. intros [Hr _]. unfold denotes. by rewrite Hr. Qed.

Lemma h_bind_Some {A B} (m : H A) (k : A → H B) (h h' : heap) (a : A) :
  m h = Some (a, h') → h_bind m k h = k a h'.
Proof. unfold h_bind. by intros ->. Qed.

Lemma keep_denotes (p : Cert → bool) (h : heap) (l : list loc) (cs : list Cert) :
  denotes h l cs →
  ∃ kept, keep p l h = Some (kept, h)
          ∧ sublist kept l ∧ denotes h kept (List.filter p cs).
Proof.
  induction 1 as [|r c l cs Hr Hl IH]; simpl.
  - exists []. repeat split; constructor.
  - destruct IH as (kept & Hkeep & Hsub & Hden).
    exists (if p c then r :: kept else kept).
    unfold h_bind, read_record. rewrite Hr, Hkeep. unfold h_ret.
    split; [done|]. destruct (p c).
    + split; [by constructor | by constructor].
    + split; [by constructor | done].
Qed.

Lemma alloc_array_spec (l : list loc) (h : heap) :
  ∃ h', alloc_array l h = Some (List.length (arrays h), h')
        ∧ extends h h'
        ∧ arrays h' !! List.length (arrays h) = Some l.
Proof.
  eexists. split; [reflexivity|]. split.
  - split; [done | by exists [l]].
  - simpl. rewrite lookup_app_r by done. by rewrite Nat.sub_diag.
Qed.

(** What one statement [filtered = filtered.filter(p)] under a guard
    does to an array that was allocated after [h0]. *)
Lemma guarded_filter_spec (g : bool) (p : Cert → bool)
    (h0 h : heap) (a : loc) (l0 l : list loc) (cs : list Cert) :
  extends h0 h → (List.length (arrays h0) ≤ a)%nat →
  arrays h !! a = Some l → sublist l l0 → denotes h l cs →
  ∃ a' h' l',
    (if g then array_filter p a else h_ret a) h = Some (a', h')
    ∧ extends h0 h' ∧ (List.length (arrays h0) ≤ a')%nat
    ∧ arrays h' !! a' = Some l' ∧ sublist l' l0
    ∧ denotes h' l' (if g then List.filter p cs else cs).
Proof.
  intros Hext Hfresh Ha Hsub Hden. destruct g.
  - destruct (keep_denotes p h l cs Hden) as (kept & Hkeep & Hks & Hkd).
    destruct (alloc_array_spec kept h) as (h' & Halloc & Hext' & Hnew).
    exists (List.length (arrays h)), h', kept.
    unfold array_filter, h_bind, read_array. rewrite Ha, Hkeep.
    split; [done|]. split; [by eapply extends_trans|].
    split; [by apply extends_length|]. split; [done|].
    split; [by etrans | by eapply denotes_extends].
  - exists a, h, l. unfold h_ret. by split_and!.
Qed.

Lemma filterCerts_heap_spec (h : heap) (certs : loc) (l : list loc)
    (cs : list Cert) (filters : Filters) :
  arrays h !! certs = Some l → denotes h l cs →
  ∃ a' h' out,
    Heap.filterCerts certs filters h = Some (a', h')
    ∧ extends h h' ∧ (List.length (arrays h) ≤ a')%nat
    ∧ arrays h' !! a' = Some out ∧ sublist out l
    ∧ denotes h' out (Query.filterCerts cs filters).
Proof.
  intros Hl Hden. unfold Heap.filterCerts, Query.filterCerts.
  destruct (alloc_array_spec l h) as (h1 & Halloc & Hext1 & Hnew1).
  assert (Hcopy : array_copy certs h = Some (List.length (arrays h), h1)).
  { unfold array_copy, h_bind, read_array. by rewrite Hl. }
  rewrite (h_bind_Some _ _ _ _ _ Hcopy).
  assert (Hden1 : denotes h1 l cs) by by eapply denotes_extends.
  destruct (guarded_filter_spec (Query.search_on filters)
              (Query.search_pred (toLowerCase (Query.str (f_search filters))))
              h h1 _ l l cs Hext1 (le_n _) Hnew1 (reflexivity _) Hden1)
    as (a2 & h2 & l2 & Hrun2 & Hext2 & Hfresh2 & Ha2 & Hsub2 & Hden2).
  rewrite (h_bind_Some _ _ _ _ _ Hrun2).
  destruct (guarded_filter_spec (Query.sector_on filters)
              (Query.sector_pred (Query.str (f_sector filters)))
              h h2 a2 l l2 _ Hext2 Hfresh2 Ha2 Hsub2 Hden2)
    as (a3 & h3 & l3 & Hrun3 & Hext3 & Hfresh3 & Ha3 & Hsub3 & Hden3).
  rewrite (h_bind_Some _ _ _ _ _ Hrun3).
  destruct (guarded_filter_spec (Query.country_on filters)
              (Query.country_pred (Query.str (f_country filters)))
              h h3 a3 l l3 _ Hext3 Hfresh3 Ha3 Hsub3 Hden3)
    as (a4 & h4 & l4 & Hrun4 & Hext4 & Hfresh4 & Ha4 & Hsub4 & Hden4).
  rewrite (h_bind_Some _ _ _ _ _ Hrun4).
  destruct (guarded_filter_spec (Query.pgp_on filters) Query.pgp_pred
              h h4 a4 l l4 _ Hext4 Hfresh4 Ha4 Hsub4 Hden4)
    as (a5 & h5 & l5 & Hrun5 & Hext5 & Hfresh5 & Ha5 & Hsub5 & Hden5).
  rewrite (h_bind_Some _ _ _ _ _ Hrun5).
  exists a5, h5, l5. unfold h_ret. by split_and!.
Qed.

End HeapFacts.

Section SubsequenceClaim.

Context {folding : CaseFolding}.

Import Heap.

(** C9.  [filterCerts] returns a subsequence of its input: every
    output record is an element of the input, in the same relative
    order; on the heap, the returned array is a fresh one, whose
    elements are references of the input array and stand for the
    records the pipeline selects, and every record and every array
    that existed before the call, the input array among them, is as it
    was. *)
Theorem filterCerts_subsequence :
  ∀ (h : heap) (certs : loc) (l : list loc) (cs : list Cert) (filters : Filters),
    arrays h !! certs = Some l → denotes h l cs →
    sublist (Query.filterCerts cs filters) cs
    ∧ (∀ c, c ∈ Query.filterCerts cs filters → c ∈ cs)
    ∧ ∃ a' h' out,
        Heap.filterCerts certs filters h = Some (a', h')
        ∧ arrays h !! a' = None
        ∧ records h' = records h
        ∧ (∀ b x, arrays h !! b = Some x → arrays h' !! b = Some x)
        ∧ arrays h' !! a' = Some out
        ∧ sublist out l
        ∧ denotes h' out (Query.filterCerts cs filters).
Proof.
  intros h certs l cs filters Hl Hden.
  pose proof (filterCerts_sublist cs filters) as Hsub.
  split; [done|]. split.
  - intros c. by apply sublist_subseteq.
  - destruct (filterCerts_heap_spec h certs l cs filters Hl Hden)
      as (a' & h' & out & Hrun & Hext & Hfresh & Hout & Hsubl & Hden').
    exists a', h', out. split_and!; try done.
    + by apply lookup_ge_None.
    + by destruct Hext.
    + intros b x. by apply extends_lookup.
Qed.

End SubsequenceClaim.

Section SubsequenceClaimExamples.

#[local] Existing Instance ascii_folding.

Import Heap.

Lemma filterCerts_subsequence_witness :
  sublist (Query.filterCerts Sample.certs (mkFilters None (Some "Government") None None))
          Sample.certs
  ∧ (∀ c, c ∈ Query.filterCerts Sample.certs
                (mkFilters None (Some "Government") None None) →
          c ∈ Sample.certs)
  ∧ ∃ a' h' out,
      Heap.filterCerts 0%nat (mkFilters None (Some "Government") None None)
        (mkHeap Sample.certs [[0; 1]%nat]) = Some (a', h')
      ∧ arrays (mkHeap Sample.certs [[0; 1]%nat]) !! a' = None
      ∧ records h' = Sample.certs
      ∧ (∀ b x, arrays (mkHeap Sample.certs [[0; 1]%nat]) !! b = Some x →
                arrays h' !! b = Some x)
      ∧ arrays h' !! a' = Some out
      ∧ sublist out [0; 1]%nat
      ∧ denotes h' out
          (Query.filterCerts Sample.certs (mkFilters None (Some "Government") None None)).
Proof.
  apply (filterCerts_subsequence (mkHeap Sample.certs [[0; 1]%nat]) 0%nat
           [0; 1]%nat Sample.certs).
  - reflexivity.
  - repeat constructor.
Defined.

End SubsequenceClaimExamples.

(** ** The [pgp] parameter *)

Section PgpClaim.

Context {folding : CaseFolding}.

Import Api.

Lemma query_get_without_pgp (q : list (string * string)) (k : string) :
  query_get (without_pgp q) k = if String.eqb k "pgp" then None else query_get q k.
Proof.
  induction q as [|[k' v] q IH]; simpl.
  - by destruct (String.eqb k "pgp").
  - destruct (String.eqb k' "pgp") eqn:Hk'; simpl.
    + apply String.eqb_eq in Hk' as ->. rewrite IH.
      destruct (String.eqb k "pgp") eqn:Hk; [done|].
      rewrite String.eqb_sym, Hk. done.
    + rewrite IH. destruct (String.eqb k' k) eqn:Hkk; [|done].
      apply String.eqb_eq in Hkk as ->. by rewrite Hk'.
Qed.

Lemma parse_filters_without_pgp (q : list (string * string)) :
  parse_filters (without_pgp q)
  = mkFilters (f_search (parse_filters q)) (f_sector (parse_filters q))
              (f_country (parse_filters q)) None.
Proof. unfold parse_filters. by rewrite !query_get_without_pgp. Qed.

Lemma data_of_GET_certs (rawPath : string) (q : list (string * string))
    (e : Env) (s : State) :
  api_path rawPath = "/certs" →
  data_of (handler (mkEvent (Some "GET") (Some rawPath) q) e s).1
  = if (List.length (loadCertData e s).1 =? 0)%nat then None
    else Some (Query.filterCerts (loadCertData e s).1 (parse_filters q)).
Proof.
  intros Hpath. rewrite handler_GET, Hpath.
  destruct (loadCertData e s) as [certs s']. cbv beta iota. cbn [fst].
  destruct (List.length certs =? 0)%nat; [done|]. by rewrite route_certs.
Qed.

(** C10.  On a request to [/certs] the PGP step runs only when the
    [pgp] parameter is exactly [true]: then the records returned are
    those of the same request without the parameter that have
    [pgpKey.available] true; for any other value, and when the
    parameter is absent, the records returned are exactly those of the
    same request without the parameter. *)
Theorem pgp_filter_only_on_true :
  ∀ (e : Env) (s : State) (rawPath : string) (q : list (string * string)),
    api_path rawPath = "/certs" →
    (query_get q "pgp" = Some "true" →
     data_of (handler (mkEvent (Some "GET") (Some rawPath) q) e s).1
     = List.filter Query.pgp_pred
         <$> data_of (handler (mkEvent (Some "GET") (Some rawPath) (without_pgp q)) e s).1)
    ∧ (query_get q "pgp" ≠ Some "true" →
       data_of (handler (mkEvent (Some "GET") (Some rawPath) q) e s).1
       = data_of (handler (mkEvent (Some "GET") (Some rawPath) (without_pgp q)) e s).1).
Proof.
  intros e s rawPath q Hpath.
  rewrite !data_of_GET_certs by done. rewrite parse_filters_without_pgp.
  destruct (List.length (loadCertData e s).1 =? 0)%nat.
  - split; done.
  - rewrite (filterCerts_pgp_step _ (parse_filters q)). simpl.
    unfold Query.pgp_on. simpl. split; intros Hpgp.
    + by rewrite bool_decide_eq_true_2.
    + by rewrite bool_decide_eq_false_2.
Qed.

End PgpClaim.

Section PgpClaimExamples.

#[local] Existing Instance ascii_folding.

Import Api.

Lemma pgp_filter_only_on_true_witness :
  (data_of (handler (mkEvent (Some "GET") (Some "/api/certs") [("pgp", "true")])
              (Sample.api_env (Some Sample.certs)) initial).1
   = Some [Sample.japan])
  ∧ (data_of (handler (mkEvent (Some "GET") (Some "/api/certs") [("pgp", "TRUE")])
                (Sample.api_env (Some Sample.certs)) initial).1
     = Some Sample.certs).
Proof.
  split.
  - rewrite (proj1 (pgp_filter_only_on_true (Sample.api_env (Some Sample.certs))
                      initial "/api/certs" [("pgp", "true")] eq_refl) eq_refl).
    vm_compute. reflexivity.
  - rewrite (proj2 (pgp_filter_only_on_true (Sample.api_env (Some Sample.certs))
                      initial "/api/certs" [("pgp", "TRUE")] eq_refl)).
    + vm_compute. reflexivity.
    + vm_compute. discriminate.
Defined.

End PgpClaimExamples.

(** ** The two caches *)

Section StaticCacheFacts.

Import Static.

Lemma getCachedFile_hit (e : Env) (s : State) (filePath : string)
    (entry : CacheEntry) :
  cache s !! filePath = Some entry →
  clock e (ticks s) - timestamp entry < CACHE_TTL →
  getCachedFile filePath e s
  = (Some (content entry), mkState (cache s) (S (ticks s)) (reads s)).
Proof.
  intros Hentry Hfresh. unfold getCachedFile, eff_bind, Date_now, cache_get.
  simpl. rewrite Hentry.
  by rewrite (proj2 (Z.ltb_lt _ _) Hfresh).
Qed.

Lemma read_through_run (filePath : string) (e : Env) (s : State) :
  read_through filePath (clock e (ticks s)) e
    (mkState (cache s) (S (ticks s)) (reads s))
  = match disk e filePath with
    | Some c =>
        (Some c,
         mkState (<[filePath := mkCacheEntry c (clock e (ticks s))]> (cache s))
                 (S (ticks s)) (filePath :: reads s))
    | None => (None, mkState (cache s) (S (ticks s)) (filePath :: reads s))
    end.
Proof.
  unfold read_through, eff_bind, readFileSync. simpl.
  by destruct (disk e filePath).
Qed.

Lemma getCachedFile_expired (e : Env) (s : State) (filePath : string)
    (entry : CacheEntry) :
  cache s !! filePath = Some entry →
  CACHE_TTL ≤ clock e (ticks s) - timestamp entry →
  getCachedFile filePath e s = after_read e s filePath.
Proof.
  intros Hentry Hold.
  unfold getCachedFile, after_read, eff_bind, Date_now, cache_get.
  simpl. rewrite Hentry.
  rewrite (proj2 (Z.ltb_ge _ _) Hold). apply read_through_run.
Qed.

Lemma getCachedFile_absent (e : Env) (s : State) (filePath : string) :
  cache s !! filePath = None →
  getCachedFile filePath e s = after_read e s filePath.
Proof.
  intros Hentry.
  unfold getCachedFile, after_read, eff_bind, Date_now, cache_get.
  simpl. rewrite Hentry. apply read_through_run.
Qed.

(** A lookup finds nothing exactly when the cache holds no entry
    younger than the TTL and the read from disk fails. *)
Lemma getCachedFile_None (e : Env) (s : State) (filePath : string) :
  (getCachedFile filePath e s).1 = None
  ↔ disk e filePath = None
    ∧ ∀ entry, cache s !! filePath = Some entry →
               CACHE_TTL ≤ clock e (ticks s) - timestamp entry.
Proof.
  destruct (cache s !! filePath) as [entry|] eqn:Hentry.
  - destruct (Z.lt_ge_cases (clock e (ticks s) - timestamp entry) CACHE_TTL)
      as [Hfresh|Hold].
    + rewrite (getCachedFile_hit e s filePath entry) by done. simpl.
      split; [done|]. intros [_ Hall]. specialize (Hall entry eq_refl). lia.
    + rewrite (getCachedFile_expired e s filePath entry) by done.
      unfold after_read. destruct (disk e filePath); simpl.
      * split; [done | by intros [? _]].
      * split; [|done]. intros _. split; [done|]. by intros ? [= <-].
  - rewrite getCachedFile_absent by done.
    unfold after_read. destruct (disk e filePath); simpl.
    + split; [done | by intros [? _]].
    + split; [|done]. intros _. split; [done|]. by intros ? [=].
Qed.

End StaticCacheFacts.

Section ApiCacheFacts.

Import Api.

Lemma loadCertData_hit (e : Env) (s : State) (data : list Cert) :
  certData s = Some data →
  clock e (ticks s) - certDataTimestamp s < CACHE_TTL →
  loadCertData e s
  = (data, mkState (certData s) (certDataTimestamp s) (S (ticks s)) (reads s)).
Proof.
  intros Hdata Hfresh. unfold loadCertData, eff_bind, Date_now, get_state.
  simpl. rewrite Hdata.
  by rewrite (proj2 (Z.ltb_lt _ _) Hfresh).
Qed.

Lemma reload_run (now : Z) (e : Env) (s : State) :
  reload now e s
  = match dataFile e with
    | Some data => (data, mkState (Some data) now (ticks s) (S (reads s)))
    | None => ([], mkState (certData s) (certDataTimestamp s) (ticks s) (S (reads s)))
    end.
Proof.
  unfold reload, eff_bind, readDataFile. simpl. by destruct (dataFile e).
Qed.

Lemma loadCertData_expired (e : Env) (s : State) (data : list Cert) :
  certData s = Some data →
  CACHE_TTL ≤ clock e (ticks s) - certDataTimestamp s →
  loadCertData e s = after_reload e s.
Proof.
  intros Hdata Hold. unfold loadCertData, after_reload, eff_bind, Date_now, get_state.
  simpl. rewrite Hdata. rewrite (proj2 (Z.ltb_ge _ _) Hold), reload_run.
  simpl. by destruct (dataFile e).
Qed.



End ApiCacheFacts.

Section CacheClaim.

(** C2.  In both caches a lookup made less than the TTL after the
    entry was stored answers with the stored value, without reading
    the backing source and without touching the entry; a lookup made
    once the TTL has elapsed ([now - storedAt >= TTL]) reads the
    backing source again, answers with what the read gives, and on
    success overwrites the entry with the new value and the current
    time, while a failed read leaves the entry as it was.  The TTL is
    5 minutes for the static-asset cache and 10 minutes for the
    dataset cache. *)
Theorem ttl_cache :
  (Static.CACHE_TTL = 5 * 60 * 1000 ∧ Api.CACHE_TTL = 10 * 60 * 1000)
  ∧ (∀ (e : Static.Env) (s : Static.State) (filePath : string)
       (entry : Static.CacheEntry),
       Static.cache s !! filePath = Some entry →
       (Static.clock e (Static.ticks s) - Static.timestamp entry < Static.CACHE_TTL →
        Static.getCachedFile filePath e s
        = (Some (Static.content entry),
           Static.mkState (Static.cache s) (S (Static.ticks s)) (Static.reads s)))
       ∧ (Static.CACHE_TTL ≤ Static.clock e (Static.ticks s) - Static.timestamp entry →
          ∃ s', Static.getCachedFile filePath e s = (Static.disk e filePath, s')
                ∧ Static.reads s' = filePath :: Static.reads s
                ∧ Static.cache s'
                  = match Static.disk e filePath with
                    | Some c =>
                        <[filePath := Static.mkCacheEntry c
                                        (Static.clock e (Static.ticks s))]>
                          (Static.cache s)
                    | None => Static.cache s
                    end))
  ∧ (∀ (e : Api.Env) (s : Api.State) (data : list Cert),
       Api.certData s = Some data →
       (Api.clock e (Api.ticks s) - Api.certDataTimestamp s < Api.CACHE_TTL →
        Api.loadCertData e s
        = (data, Api.mkState (Api.certData s) (Api.certDataTimestamp s)
                   (S (Api.ticks s)) (Api.reads s)))
       ∧ (Api.CACHE_TTL ≤ Api.clock e (Api.ticks s) - Api.certDataTimestamp s →
          ∃ s', Api.loadCertData e s = (default [] (Api.dataFile e), s')
                ∧ Api.reads s' = S (Api.reads s)
                ∧ (Api.certData s', Api.certDataTimestamp s')
                  = match Api.dataFile e with
                    | Some d => (Some d, Api.clock e (Api.ticks s))
                    | None => (Api.certData s, Api.certDataTimestamp s)
                    end)).
Proof.
  split; [by split|]. split.
  - intros e s filePath entry Hentry. split.
    + by apply getCachedFile_hit.
    + intros Hold. rewrite (getCachedFile_expired e s filePath entry) by done.
      unfold Static.after_read. destruct (Static.disk e filePath); by eexists.
  - intros e s data Hdata. split.
    + by apply loadCertData_hit.
    + intros Hold. rewrite (loadCertData_expired e s data) by done.
      unfold Api.after_reload. destruct (Api.dataFile e); by eexists.
Qed.

Lemma ttl_cache_witness :
  (Static.getCachedFile "dist/index.html" Sample.empty_disk (Sample.cached_index 0)
   = (Some Sample.html,
      Static.mkState (Static.cache (Sample.cached_index 0)) 2 ["dist/index.html"]))
  ∧ (∃ s', Static.getCachedFile "dist/index.html" Sample.static_env
             (Sample.cached_index (-299000))
           = (Some Sample.html, s')
           ∧ Static.reads s' = ["dist/index.html"; "dist/index.html"]
           ∧ Static.cache s'
             = <["dist/index.html" := Static.mkCacheEntry Sample.html 1000]>
                 (Static.cache (Sample.cached_index (-299000))))
  ∧ (Api.loadCertData (Sample.api_env None) (Sample.cached_certs 0)
     = (Sample.certs, Api.mkState (Some Sample.certs) 0 2 1))
  ∧ (∃ s', Api.loadCertData (Sample.api_env (Some [Sample.japan]))
             (Sample.cached_certs (-599000))
           = ([Sample.japan], s')
           ∧ Api.reads s' = 2%nat
           ∧ (Api.certData s', Api.certDataTimestamp s')
             = (Some [Sample.japan], 1000)).
Proof.
  split; [|split; [|split]].
  - apply (proj1 (proj1 (proj2 ttl_cache) Sample.empty_disk (Sample.cached_index 0)
                    "dist/index.html" (Static.mkCacheEntry Sample.html 0) eq_refl)).
    vm_compute. reflexivity.
  - apply (proj2 (proj1 (proj2 ttl_cache) Sample.static_env
                    (Sample.cached_index (-299000))
                    "dist/index.html" (Static.mkCacheEntry Sample.html (-299000))
                    eq_refl)).
    vm_compute. discriminate.
  - apply (proj1 (proj2 (proj2 ttl_cache) (Sample.api_env None)
                    (Sample.cached_certs 0) Sample.certs eq_refl)).
    vm_compute. reflexivity.
  - apply (proj2 (proj2 (proj2 ttl_cache) (Sample.api_env (Some [Sample.japan]))
                    (Sample.cached_certs (-599000)) Sample.certs eq_refl)).
    vm_compute. discriminate.
Defined.

End CacheClaim.

(** ** The static resolver *)

Section HeaderFacts.

Lemma spread_lookup_None (a b : Headers) (k : string) :
  b !! k = None → spread a b !! k = a !! k.
Proof. intros Hb. unfold spread. by apply lookup_union_r. Qed.


(** The security headers of the static handler name neither the
    content type nor the cache policy. *)
Lemma static_security_no_Content_Type :
  Static.securityHeaders !! "Content-Type" = None.
Proof. vm_compute. reflexivity. Qed.

Lemma static_security_no_Cache_Control :
  Static.securityHeaders !! "Cache-Control" = None.
Proof. vm_compute. reflexivity. Qed.

End HeaderFacts.

Section StaticFacts.

Context {folding : CaseFolding}.

Import Static Spec.

Lemma handleStaticFile_run (requestedPath : string) (e : Env) (s : State) :
  handleStaticFile requestedPath e s
  = match getCachedFile (resolve requestedPath) e s with
    | (Some content, s1) => (file_response (resolve requestedPath) content, s1)
    | (None, s1) =>
        match getCachedFile "dist/index.html" e s1 with
        | (Some indexContent, s2) => (index_response indexContent, s2)
        | (None, s2) => (not_found_response, s2)
        end
    end.
Proof.
  unfold handleStaticFile, eff_bind.
  destruct (getCachedFile (resolve requestedPath) e s) as [[content|] s1]; [done|].
  by destruct (getCachedFile "dist/index.html" e s1) as [[indexContent|] s2].
Qed.

Lemma coherent_initial (e : Env) : coherent e initial.
Proof. intros filePath entry Hentry. simpl in Hentry. by rewrite lookup_empty in Hentry. Qed.

(** On a coherent cache a lookup answers with what the disk has, and
    leaves the cache coherent. *)
Lemma getCachedFile_coherent (e : Env) (s : State) (filePath : string) :
  coherent e s →
  (getCachedFile filePath e s).1 = disk e filePath
  ∧ coherent e (getCachedFile filePath e s).2.
Proof.
  intros Hco.
  assert (Hread : (after_read e s filePath).1 = disk e filePath
                  ∧ coherent e (after_read e s filePath).2).
  { unfold after_read. destruct (disk e filePath) as [c|] eqn:Hdisk; simpl.
    - split; [done|]. intros fp entry. simpl.
      destruct (decide (filePath = fp)) as [<-|Hne].
      + rewrite lookup_insert_eq. by intros [= <-].
      + rewrite lookup_insert_ne by done. apply Hco.
    - split; [done|]. exact Hco. }
  destruct (cache s !! filePath) as [entry|] eqn:Hentry.
  - destruct (Z.lt_ge_cases (clock e (ticks s) - timestamp entry) CACHE_TTL)
      as [Hfresh|Hold].
    + rewrite (getCachedFile_hit e s filePath entry) by done. simpl.
      split; [by rewrite (Hco _ _ Hentry) | exact Hco].
    + by rewrite (getCachedFile_expired e s filePath entry).
  - by rewrite getCachedFile_absent.
Qed.

Lemma cached_index_coherent (t : Z) :
  coherent Sample.static_env (Sample.cached_index t).
Proof.
  intros filePath entry Hentry. unfold Sample.cached_index in Hentry.
  simpl in Hentry. apply lookup_singleton_Some in Hentry as [<- <-].
  reflexivity.
Qed.

Lemma handleStaticFile_coherent (requestedPath : string) (e : Env) (s : State) :
  coherent e s → coherent e (handleStaticFile requestedPath e s).2.
Proof.
  intros Hco. rewrite handleStaticFile_run.
  pose proof (getCachedFile_coherent e s (resolve requestedPath) Hco) as [_ Hco1].
  destruct (getCachedFile (resolve requestedPath) e s) as [[content|] s1];
    simpl in *; [done|].
  pose proof (getCachedFile_coherent e s1 "dist/index.html" Hco1) as [_ Hco2].
  by destruct (getCachedFile "dist/index.html" e s1) as [[indexContent|] s2].
Qed.

Lemma index_response_Cache_Control (indexContent : Buffer) :
  headers (index_response indexContent) !! "Cache-Control"
  = Some "no-cache, no-store, must-revalidate".
Proof. unfold index_response. simpl. apply lookup_insert_eq. Qed.

Lemma index_response_Content_Type (indexContent : Buffer) :
  headers (index_response indexContent) !! "Content-Type" = Some "text/html".
Proof.
  unfold index_response. simpl. rewrite lookup_insert_ne by discriminate.
  rewrite spread_lookup_None by apply static_security_no_Content_Type.
  apply lookup_singleton_eq.
Qed.

Lemma not_found_Content_Type :
  headers not_found_response !! "Content-Type" = Some "text/html".
Proof.
  unfold not_found_response. simpl.
  rewrite spread_lookup_None by apply static_security_no_Content_Type.
  apply lookup_singleton_eq.
Qed.

Lemma not_found_Cache_Control :
  headers not_found_response !! "Cache-Control" = None.
Proof.
  unfold not_found_response. simpl.
  rewrite spread_lookup_None by apply static_security_no_Cache_Control.
  by apply lookup_singleton_ne.
Qed.

Lemma file_response_Content_Type (filePath : string) (content : Buffer) :
  headers (file_response filePath content) !! "Content-Type"
  = Some (getContentType filePath).
Proof.
  unfold file_response. simpl.
  rewrite spread_lookup_None by apply static_security_no_Content_Type.
  rewrite lookup_insert_ne by discriminate. apply lookup_singleton_eq.
Qed.

Lemma file_response_Cache_Control (filePath : string) (content : Buffer) :
  headers (file_response filePath content) !! "Cache-Control"
  = Some (cacheControl (getContentType filePath)).
Proof.
  unfold file_response. simpl.
  rewrite spread_lookup_None by apply static_security_no_Cache_Control.
  apply lookup_insert_eq.
Qed.

Lemma isText_spec (contentType : string) :
  isText contentType = true ↔ textual contentType.
Proof.
  unfold isText, textual.
  rewrite !orb_true_iff, startsWith_spec, !includes_spec. tauto.
Qed.

Lemma mimeTypes_truthy :
  map_Forall (λ _ type, truthy type = true) mimeTypes.
Proof. refine (bool_decide_unpack _ _). vm_compute. exact I. Qed.

Lemma getContentType_table (filePath : string) :
  getContentType filePath
  = default "application/octet-stream"
      (mimeTypes !! toLowerCase (Path.extname filePath)).
Proof.
  unfold getContentType.
  destruct (mimeTypes !! toLowerCase (Path.extname filePath)) as [type|] eqn:Hext;
    [|done].
  by rewrite (mimeTypes_truthy _ _ Hext).
Qed.

Lemma cacheControl_class (contentType : string) :
  (contentType = "text/html" →
   cacheControl contentType = "no-cache, no-store, must-revalidate")
  ∧ (contentType = "application/json" →
     cacheControl contentType = "public, max-age=3600")
  ∧ (contentType ≠ "text/html" → contentType ≠ "application/json" →
     cacheControl contentType = "public, max-age=31536000, immutable").
Proof.
  unfold cacheControl. split_and!.
  - by intros ->.
  - by intros ->.
  - intros Hhtml Hjson.
    apply String.eqb_neq in Hhtml. apply String.eqb_neq in Hjson.
    by rewrite Hhtml, Hjson.
Qed.

End StaticFacts.

Section StaticClaims.

Context {folding : CaseFolding}.

Import Static Spec.

(** C3.  When the file a request path names cannot be read, the
    resolver turns to the root document [dist/index.html]: if that can
    be read the response has status 200, the root document as its body,
    [Content-Type: text/html] and [Cache-Control: no-cache, no-store,
    must-revalidate]; if not, the response has status 404,
    [Content-Type: text/html] and the body [<h1>404 - Not
    Found</h1><p>The requested resource was not found.</p>], a heading
    and one paragraph.  Either way a response is returned: a missing
    file never makes the resolver fail.  This is stated twice: for the
    lookups through the cache, in any state; and for the files on disk,
    in a state whose cache agrees with the disk. *)
Theorem spa_fallback :
  (∀ (e : Env) (s s1 : State) (requestedPath : string),
      getCachedFile (resolve requestedPath) e s = (None, s1) →
      (∀ (indexContent : Buffer) (s2 : State),
          getCachedFile "dist/index.html" e s1 = (Some indexContent, s2) →
          ∃ r, handleStaticFile requestedPath e s = (r, s2)
               ∧ statusCode r = 200
               ∧ body r = BodyUtf8 indexContent
               ∧ headers r !! "Content-Type" = Some "text/html"
               ∧ headers r !! "Cache-Control"
                 = Some "no-cache, no-store, must-revalidate")
      ∧ (∀ s2 : State,
            getCachedFile "dist/index.html" e s1 = (None, s2) →
            ∃ r, handleStaticFile requestedPath e s = (r, s2)
                 ∧ statusCode r = 404
                 ∧ body r
                   = BodyLiteral
                       "<h1>404 - Not Found</h1><p>The requested resource was not found.</p>"
                 ∧ headers r !! "Content-Type" = Some "text/html"
                 ∧ headers r !! "Cache-Control" = None
                 ∧ isBase64Encoded r = None)
      ∧ (statusCode (handleStaticFile requestedPath e s).1 = 200
         ∨ statusCode (handleStaticFile requestedPath e s).1 = 404))
  ∧ (∀ (e : Env) (s : State) (requestedPath : string),
       coherent e s →
       disk e (resolve requestedPath) = None →
       (∀ indexContent : Buffer,
           disk e "dist/index.html" = Some indexContent →
           statusCode (handleStaticFile requestedPath e s).1 = 200
           ∧ body (handleStaticFile requestedPath e s).1 = BodyUtf8 indexContent
           ∧ headers (handleStaticFile requestedPath e s).1 !! "Content-Type"
             = Some "text/html"
           ∧ headers (handleStaticFile requestedPath e s).1 !! "Cache-Control"
             = Some "no-cache, no-store, must-revalidate")
       ∧ (disk e "dist/index.html" = None →
          statusCode (handleStaticFile requestedPath e s).1 = 404
          ∧ body (handleStaticFile requestedPath e s).1
            = BodyLiteral
                "<h1>404 - Not Found</h1><p>The requested resource was not found.</p>"
          ∧ headers (handleStaticFile requestedPath e s).1 !! "Content-Type"
            = Some "text/html"
          ∧ headers (handleStaticFile requestedPath e s).1 !! "Cache-Control"
            = None)).
Proof.
  split.
  - intros e s s1 requestedPath Hmiss.
    rewrite handleStaticFile_run, Hmiss. split_and!.
    + intros indexContent s2 ->. exists (index_response indexContent).
      split; [done|]. split; [done|]. split; [done|].
      split; [apply index_response_Content_Type | apply index_response_Cache_Control].
    + intros s2 ->. exists not_found_response.
      split; [done|]. split; [done|]. split; [done|].
      split; [apply not_found_Content_Type|]. split; [apply not_found_Cache_Control|].
      done.
    + destruct (getCachedFile "dist/index.html" e s1) as [[indexContent|] s2];
        [by left | by right].
  - intros e s requestedPath Hco Hdisk.
    destruct (getCachedFile_coherent e s (resolve requestedPath) Hco)
      as [Hfile Hco1].
    rewrite handleStaticFile_run.
    destruct (getCachedFile (resolve requestedPath) e s) as [content s1].
    simpl in Hfile, Hco1. rewrite Hfile, Hdisk.
    destruct (getCachedFile_coherent e s1 "dist/index.html" Hco1) as [Hindex _].
    destruct (getCachedFile "dist/index.html" e s1) as [indexRead s2].
    simpl in Hindex. rewrite Hindex. split.
    + intros indexContent ->. cbn [fst].
      split; [done|]. split; [done|].
      split; [apply index_response_Content_Type | apply index_response_Cache_Control].
    + intros ->. cbn [fst]. split; [done|]. split; [done|].
      split; [apply not_found_Content_Type | apply not_found_Cache_Control].
Qed.

(** C6.  For a file the lookup finds: when its content type starts
    with [text/] or contains [javascript] or [json], the body is the
    text of the file and the base64 flag is false; for every other
    content type the body is the base64 encoding of the bytes of the
    file and the flag is true. *)
Theorem body_encoding :
  ∀ (e : Env) (s s1 : State) (requestedPath : string) (content : Buffer),
    getCachedFile (resolve requestedPath) e s = (Some content, s1) →
    ∃ r, handleStaticFile requestedPath e s = (r, s1)
         ∧ statusCode r = 200
         ∧ headers r !! "Content-Type"
           = Some (getContentType (resolve requestedPath))
         ∧ (textual (getContentType (resolve requestedPath)) →
            body r = BodyUtf8 content ∧ isBase64Encoded r = Some false)
         ∧ (¬ textual (getContentType (resolve requestedPath)) →
            body r = BodyBase64 content ∧ isBase64Encoded r = Some true).
Proof.
  intros e s s1 requestedPath content Hfound.
  rewrite handleStaticFile_run, Hfound.
  exists (file_response (resolve requestedPath) content).
  split; [done|]. split; [done|].
  split; [apply file_response_Content_Type|]. split.
  - intros Htext. apply isText_spec in Htext.
    unfold file_response. simpl. by rewrite Htext.
  - intros Hbin. rewrite <- isText_spec in Hbin. apply not_true_is_false in Hbin.
    unfold file_response. simpl. by rewrite Hbin.
Qed.

(** C7.  For a file the lookup finds, the content type is the entry
    of the extension table for the lower-cased extension of the file,
    or [application/octet-stream] when the table has none; and
    [Cache-Control] goes by the content type: [text/html] gets
    [no-cache, no-store, must-revalidate], [application/json] gets
    [public, max-age=3600], every other type gets [public,
    max-age=31536000, immutable]. *)
Theorem content_type_and_cache_policy :
  ∀ (e : Env) (s s1 : State) (requestedPath : string) (content : Buffer),
    getCachedFile (resolve requestedPath) e s = (Some content, s1) →
    ∃ r contentType,
      handleStaticFile requestedPath e s = (r, s1)
      ∧ contentType
        = default "application/octet-stream"
            (mimeTypes !! toLowerCase (Path.extname (resolve requestedPath)))
      ∧ headers r !! "Content-Type" = Some contentType
      ∧ (contentType = "text/html" →
         headers r !! "Cache-Control" = Some "no-cache, no-store, must-revalidate")
      ∧ (contentType = "application/json" →
         headers r !! "Cache-Control" = Some "public, max-age=3600")
      ∧ (contentType ≠ "text/html" → contentType ≠ "application/json" →
         headers r !! "Cache-Control"
         = Some "public, max-age=31536000, immutable")
      ∧ 3600 = 60 * 60 ∧ 31536000 = 365 * 24 * 60 * 60.
Proof.
  intros e s s1 requestedPath content Hfound.
  rewrite handleStaticFile_run, Hfound.
  exists (file_response (resolve requestedPath) content),
    (getContentType (resolve requestedPath)).
  destruct (cacheControl_class (getContentType (resolve requestedPath)))
    as (Hhtml & Hjson & Hother).
  rewrite file_response_Content_Type, file_response_Cache_Control.
  split; [done|]. split; [apply getContentType_table|]. split; [done|].
  split; [intros Hct; by rewrite Hhtml|].
  split; [intros Hct; by rewrite Hjson|].
  split; [intros Hct1 Hct2; by rewrite Hother|]. by split.
Qed.

End StaticClaims.

Section StaticClaimsExamples.

#[local] Existing Instance ascii_folding.

Import Static Spec.

Lemma spa_fallback_witness :
  (∃ r, handleStaticFile "/about" Sample.static_env initial
        = (r, mkState {["dist/index.html" := mkCacheEntry Sample.html 1000]} 2
                ["dist/index.html"; "dist/about"])
        ∧ statusCode r = 200
        ∧ body r = BodyUtf8 Sample.html
        ∧ headers r !! "Content-Type" = Some "text/html"
        ∧ headers r !! "Cache-Control"
          = Some "no-cache, no-store, must-revalidate")
  ∧ (∃ r, handleStaticFile "/about" Sample.empty_disk initial
          = (r, mkState ∅ 2 ["dist/index.html"; "dist/about"])
          ∧ statusCode r = 404
          ∧ body r
            = BodyLiteral
                "<h1>404 - Not Found</h1><p>The requested resource was not found.</p>"
          ∧ headers r !! "Content-Type" = Some "text/html"
          ∧ headers r !! "Cache-Control" = None
          ∧ isBase64Encoded r = None)
  ∧ (statusCode (handleStaticFile "/about" Sample.static_env
                   (Sample.cached_index 0)).1 = 200
     ∧ body (handleStaticFile "/about" Sample.static_env
               (Sample.cached_index 0)).1 = BodyUtf8 Sample.html
     ∧ headers (handleStaticFile "/about" Sample.static_env
                  (Sample.cached_index 0)).1 !! "Content-Type"
       = Some "text/html"
     ∧ headers (handleStaticFile "/about" Sample.static_env
                  (Sample.cached_index 0)).1 !! "Cache-Control"
       = Some "no-cache, no-store, must-revalidate")
  ∧ (statusCode (handleStaticFile "/about" Sample.empty_disk initial).1 = 404
     ∧ body (handleStaticFile "/about" Sample.empty_disk initial).1
       = BodyLiteral
           "<h1>404 - Not Found</h1><p>The requested resource was not found.</p>"
     ∧ headers (handleStaticFile "/about" Sample.empty_disk initial).1 !! "Content-Type"
       = Some "text/html"
     ∧ headers (handleStaticFile "/about" Sample.empty_disk initial).1 !! "Cache-Control"
       = None).
Proof.
  split; [|split; [|split]].
  - apply (proj1 (proj1 spa_fallback Sample.static_env initial
                    (mkState ∅ 1 ["dist/about"]) "/about" eq_refl)).
    reflexivity.
  - apply (proj1 (proj2 (proj1 spa_fallback Sample.empty_disk initial
                           (mkState ∅ 1 ["dist/about"]) "/about" eq_refl))).
    reflexivity.
  - apply (proj1 (proj2 spa_fallback Sample.static_env (Sample.cached_index 0)
                    "/about" (cached_index_coherent 0) eq_refl)).
    reflexivity.
  - apply (proj2 (proj2 spa_fallback Sample.empty_disk initial "/about"
                    (coherent_initial _) eq_refl)).
    reflexivity.
Defined.

Lemma body_encoding_witness :
  (∃ r, handleStaticFile "/css/style.css" Sample.static_env initial
        = (r, mkState {["dist/css/style.css" := mkCacheEntry Sample.css 0]} 1
                ["dist/css/style.css"])
        ∧ headers r !! "Content-Type" = Some "text/css"
        ∧ body r = BodyUtf8 Sample.css ∧ isBase64Encoded r = Some false)
  ∧ (∃ r, handleStaticFile "/logo.png" Sample.static_env initial
          = (r, mkState {["dist/logo.png" := mkCacheEntry Sample.png 0]} 1
                  ["dist/logo.png"])
          ∧ headers r !! "Content-Type" = Some "image/png"
          ∧ body r = BodyBase64 Sample.png ∧ isBase64Encoded r = Some true).
Proof.
  split.
  - destruct (body_encoding Sample.static_env initial
                (mkState {["dist/css/style.css" := mkCacheEntry Sample.css 0]} 1
                   ["dist/css/style.css"])
                "/css/style.css" Sample.css eq_refl)
      as (r & Hrun & _ & Htype & Htext & _).
    exists r. split; [exact Hrun|]. split; [exact Htype|].
    apply Htext. left. exists "css". reflexivity.
  - destruct (body_encoding Sample.static_env initial
                (mkState {["dist/logo.png" := mkCacheEntry Sample.png 0]} 1
                   ["dist/logo.png"])
                "/logo.png" Sample.png eq_refl)
      as (r & Hrun & _ & Htype & _ & Hbin).
    exists r. split; [exact Hrun|]. split; [exact Htype|].
    apply Hbin. rewrite <- isText_spec. vm_compute. discriminate.
Defined.

Lemma content_type_and_cache_policy_witness :
  (∃ r, (handleStaticFile "/" Sample.static_env initial).1 = r
        ∧ headers r !! "Content-Type" = Some "text/html"
        ∧ headers r !! "Cache-Control" = Some "no-cache, no-store, must-revalidate")
  ∧ (∃ r, (handleStaticFile "/data/certs.json" Sample.static_env initial).1 = r
          ∧ headers r !! "Content-Type" = Some "application/json"
          ∧ headers r !! "Cache-Control" = Some "public, max-age=3600")
  ∧ (∃ r, (handleStaticFile "/logo.png" Sample.static_env initial).1 = r
          ∧ headers r !! "Content-Type" = Some "image/png"
          ∧ headers r !! "Cache-Control"
            = Some "public, max-age=31536000, immutable").
Proof.
  split; [|split].
  - destruct (content_type_and_cache_policy Sample.static_env initial
                (mkState {["dist/index.html" := mkCacheEntry Sample.html 0]} 1
                   ["dist/index.html"])
                "/" Sample.html eq_refl)
      as (r & contentType & Hrun & Htable & Htype & Hhtml & _).
    exists r. split; [by rewrite Hrun|].
    assert (Hct : contentType = "text/html") by (rewrite Htable; reflexivity).
    split; [by rewrite Htype, Hct | by apply Hhtml].
  - destruct (content_type_and_cache_policy Sample.static_env initial
                (mkState {["dist/data/certs.json" := mkCacheEntry Sample.json 0]} 1
                   ["dist/data/certs.json"])
                "/data/certs.json" Sample.json eq_refl)
      as (r & contentType & Hrun & Htable & Htype & _ & Hjson & _).
    exists r. split; [by rewrite Hrun|].
    assert (Hct : contentType = "application/json") by (rewrite Htable; reflexivity).
    split; [by rewrite Htype, Hct | by apply Hjson].
  - destruct (content_type_and_cache_policy Sample.static_env initial
                (mkState {["dist/logo.png" := mkCacheEntry Sample.png 0]} 1
                   ["dist/logo.png"])
                "/logo.png" Sample.png eq_refl)
      as (r & contentType & Hrun & Htable & Htype & _ & _ & Hother & _).
    exists r. split; [by rewrite Hrun|].
    assert (Hct : contentType = "image/png") by (rewrite Htable; reflexivity).
    split; [by rewrite Htype, Hct|].
    apply Hother; rewrite Hct; discriminate.
Defined.

End StaticClaimsExamples.

(** ** The countries view *)

Section OrderFacts.

Import Api Spec.

Lemma N_of_ascii_inj (a b : ascii) : N_of_ascii a = N_of_ascii b → a = b.
Proof.
  intros Hab. rewrite <- (ascii_N_embedding a), <- (ascii_N_embedding b).
  by rewrite Hab.
Qed.

Lemma code_unit_le_alphabetical (s t : string) :
  code_unit_le s t ↔ alphabetical s t.
Proof.
  unfold code_unit_le, String.leb. revert t.
  induction s as [|a s IH]; intros [|b t]; simpl.
  - split; [constructor | done].
  - split; [constructor | done].
  - split; [done | inversion 1].
  - unfold Ascii.compare.
    destruct (N.compare_spec (N_of_ascii a) (N_of_ascii b)) as [Heq|Hlt|Hgt].
    + apply N_of_ascii_inj in Heq as ->. rewrite IH. split.
      * by constructor.
      * inversion 1; subst; [lia | done].
    + split; [by constructor | done].
    + split; [done|]. inversion 1; subst; lia.
Qed.

Lemma alphabetical_trans (s t u : string) :
  alphabetical s t → alphabetical t u → alphabetical s u.
Proof.
  intros Hst. revert u. induction Hst as [t|a b s t Hab|a s t Hst IH]; intros u Htu.
  - constructor.
  - inversion Htu; subst.
    + apply alpha_less. lia.
    + by apply alpha_less.
  - inversion Htu; subst.
    + by apply alpha_less.
    + apply alpha_same. by apply IH.
Qed.

#[local] Instance code_unit_le_trans : Transitive code_unit_le.
Proof.
  intros s t u. rewrite !code_unit_le_alphabetical. apply alphabetical_trans.
Qed.

#[local] Instance code_unit_le_total : Total code_unit_le.
Proof. intros s t. apply String.leb_total. Qed.

Lemma sort_Permutation (xs : list string) : sort xs ≡ₚ xs.
Proof. apply merge_sort_Permutation. Qed.

Lemma StronglySorted_weaken {A} (R R' : relation A) (l : list A) :
  (∀ x y, R x y → R' x y) → StronglySorted R l → StronglySorted R' l.
Proof.
  intros HR. induction 1 as [|x l Hl IH Hx]; constructor; [done|].
  eapply Forall_impl; [exact Hx | apply HR].
Qed.

Lemma sort_sorted (xs : list string) : StronglySorted alphabetical (sort xs).
Proof.
  apply (StronglySorted_weaken code_unit_le).
  - intros s t. apply code_unit_le_alphabetical.
  - apply (StronglySorted_merge_sort code_unit_le).
Qed.

End OrderFacts.

Section CountriesFacts.

Context {folding : CaseFolding}.

Import Api Spec.

Lemma Set_add_spec (acc : list string) (a x : string) :
  x ∈ Set_add acc a ↔ x ∈ acc ∨ x = a.
Proof.
  unfold Set_add. destruct (decide (a ∈ acc)) as [Hin|Hout].
  - split; [by left | intros [?| ->]; done].
  - rewrite elem_of_app, list_elem_of_singleton. done.
Qed.

Lemma Set_add_NoDup (acc : list string) (a : string) :
  NoDup acc → NoDup (Set_add acc a).
Proof.
  intros Hacc. unfold Set_add. destruct (decide (a ∈ acc)) as [Hin|Hout]; [done|].
  apply NoDup_app. split_and!; [done | | apply NoDup_singleton].
  intros x Hx. rewrite list_elem_of_singleton. by intros ->.
Qed.

Lemma fold_Set_add (xs acc : list string) :
  NoDup acc →
  NoDup (fold_left Set_add xs acc)
  ∧ ∀ x, x ∈ fold_left Set_add xs acc ↔ x ∈ acc ∨ x ∈ xs.
Proof.
  revert acc. induction xs as [|a xs IH]; intros acc Hacc; simpl.
  - split; [done|]. intros x. rewrite elem_of_nil. tauto.
  - destruct (IH (Set_add acc a) (Set_add_NoDup acc a Hacc)) as [Hnd Hin].
    split; [done|]. intros x. rewrite Hin, Set_add_spec, elem_of_cons. tauto.
Qed.

Lemma new_Set_NoDup (xs : list string) : NoDup (new_Set xs).
Proof. apply fold_Set_add. constructor. Qed.

Lemma elem_of_new_Set (xs : list string) (x : string) : x ∈ new_Set xs ↔ x ∈ xs.
Proof.
  unfold new_Set. destruct (fold_Set_add xs [] (NoDup_nil_2 (A := string))) as [_ Hin].
  rewrite Hin, elem_of_nil. tauto.
Qed.

Lemma new_Set_length (xs : list string) :
  List.length (new_Set xs) = distinct xs.
Proof.
  unfold distinct. rewrite <- (size_list_to_set (C := gset string) (new_Set xs))
    by apply new_Set_NoDup.
  f_equal. apply set_eq. intros x.
  by rewrite !elem_of_list_to_set, elem_of_new_Set.
Qed.

Lemma countries_names (certs : list Cert) :
  List.map ce_name (countries certs) = sort (new_Set (List.map country certs)).
Proof.
  unfold countries. rewrite List.map_map. simpl. apply List.map_id.
Qed.

Lemma count_by_country (c : string) (certs : list Cert) :
  List.length (List.filter (λ cert, String.eqb (country cert) c) certs)
  = List.length (filter (λ cert, country cert = c) certs).
Proof.
  induction certs as [|cert certs IH]; [done|]. simpl.
  rewrite filter_cons. destruct (String.eqb_spec (country cert) c) as [Heq|Hne].
  - rewrite decide_True by done. simpl. by rewrite IH.
  - by rewrite decide_False.
Qed.

Lemma handler_GET_countries (q : list (string * string)) (e : Env) (s : State) :
  body (handler (mkEvent (Some "GET") (Some "/countries") q) e s).1
  = if (List.length (loadCertData e s).1 =? 0)%nat
    then body data_unavailable
    else BodyJson (JCountries (countries (loadCertData e s).1)).
Proof.
  rewrite handler_GET. change (api_path "/countries") with "/countries".
  destruct (loadCertData e s) as [certs s']. cbv beta iota. cbn [fst].
  by destruct (List.length certs =? 0)%nat.
Qed.

(** C8.  The countries view has one entry per distinct country of the
    records: as many entries as there are distinct country values, no
    name twice, the names being exactly the countries that occur; the
    entries are sorted by name in dictionary order (characters compared
    by code, as [sort()] does), and each is paired with the number of
    records having that country.  [GET /countries] answers with this
    view of the loaded records. *)
Theorem countries_view :
  ∀ certs : list Cert,
    List.length (countries certs) = distinct (List.map country certs)
    ∧ NoDup (List.map ce_name (countries certs))
    ∧ (∀ c, c ∈ List.map ce_name (countries certs)
            ↔ ∃ cert, cert ∈ certs ∧ country cert = c)
    ∧ StronglySorted alphabetical (List.map ce_name (countries certs))
    ∧ (∀ entry, entry ∈ countries certs →
         ce_count entry
         = List.length (filter (λ cert, country cert = ce_name entry) certs))
    ∧ ∀ (e : Env) (s : State) (q : list (string * string)),
        (loadCertData e s).1 = certs →
        body (handler (mkEvent (Some "GET") (Some "/countries") q) e s).1
        = if (List.length certs =? 0)%nat then body data_unavailable
          else BodyJson (JCountries (countries certs)).
Proof.
  intros certs. split_and!.
  - rewrite <- (List.length_map ce_name), countries_names.
    rewrite (Permutation_length (sort_Permutation _)). apply new_Set_length.
  - rewrite countries_names. rewrite (sort_Permutation _). apply new_Set_NoDup.
  - intros c. rewrite countries_names, (sort_Permutation _), elem_of_new_Set.
    rewrite !list_elem_of_In, in_map_iff.
    split; intros (cert & H1 & H2); exists cert; by rewrite !list_elem_of_In in *.
  - rewrite countries_names. apply sort_sorted.
  - intros entry. unfold countries. rewrite !list_elem_of_In, in_map_iff.
    intros (c & <- & _). simpl. apply count_by_country.
  - intros e s q <-. apply handler_GET_countries.
Qed.

End CountriesFacts.

Section CountriesFactsExamples.

#[local] Existing Instance ascii_folding.

Import Api Spec.

Lemma countries_view_witness :
  body (handler (mkEvent (Some "GET") (Some "/countries") [])
          (Sample.api_env (Some [Sample.japan; Sample.canada; Sample.japan])) initial).1
  = BodyJson (JCountries [mkCountryEntry "Canada" 1; mkCountryEntry "Japan" 2]).
Proof.
  rewrite (proj2 (proj2 (proj2 (proj2 (proj2
             (countries_view [Sample.japan; Sample.canada; Sample.japan])))))
             (Sample.api_env (Some [Sample.japan; Sample.canada; Sample.japan]))
             initial [] eq_refl).
  vm_compute. reflexivity.
Defined.

End CountriesFactsExamples.

(** ** The data-unavailable response *)

Section SectorsFacts.

Import Api.

Lemma has_own_app (acc : list SectorGroup) (g : SectorGroup) (key : string) :
  has_own (acc ++ [g]) key = has_own acc key || String.eqb (sg_name g) key.
Proof. unfold has_own. rewrite existsb_app. simpl. by rewrite orb_false_r. Qed.

Lemma has_own_inherited (acc : list SectorGroup) (key : string) :
  Forall (λ g, inherited (sg_name g) = false) acc →
  inherited key = true → has_own acc key = false.
Proof.
  intros Hacc Hkey. unfold has_own. apply not_true_is_false. intros Hown.
  apply existsb_exists in Hown as (g & Hg & Heq).
  apply String.eqb_eq in Heq as <-.
  rewrite Forall_forall in Hacc. apply list_elem_of_In, Hacc in Hg. congruence.
Qed.

Lemma bump_names (acc : list SectorGroup) (cert : Cert) :
  List.map sg_name (bump acc cert) = List.map sg_name acc.
Proof.
  unfold bump. rewrite List.map_map. apply List.map_ext.
  intros g. by destruct (String.eqb (sg_name g) (sector cert)).
Qed.

Lemma Forall_names (P : string → Prop) (acc acc' : list SectorGroup) :
  List.map sg_name acc' = List.map sg_name acc →
  Forall (λ g, P (sg_name g)) acc → Forall (λ g, P (sg_name g)) acc'.
Proof.
  intros Hnames Hacc. rewrite Forall_forall in *. intros g Hg.
  assert (Hin : In (sg_name g) (List.map sg_name acc'))
    by by apply in_map, list_elem_of_In.
  rewrite Hnames in Hin. apply in_map_iff in Hin as (g' & Heq & Hg').
  rewrite <- Heq. by apply Hacc, list_elem_of_In.
Qed.

(** A step of the reduce throws exactly on a record with an inherited
    name as its sector, and never makes a group of such a name. *)
Lemma sectors_step_spec (acc : list SectorGroup) (cert : Cert) :
  Forall (λ g, inherited (sg_name g) = false) acc →
  if inherited (sector cert) then sectors_step acc cert = None
  else ∃ acc', sectors_step acc cert = Some acc'
               ∧ Forall (λ g, inherited (sg_name g) = false) acc'.
Proof.
  intros Hacc. unfold sectors_step.
  destruct (inherited (sector cert)) eqn:Hkey.
  - rewrite (has_own_inherited acc _ Hacc Hkey). simpl.
    by rewrite (has_own_inherited acc _ Hacc Hkey).
  - destruct (has_own acc (sector cert)) eqn:Hown; simpl.
    + rewrite Hown. eexists. split; [done|].
      by apply (Forall_names (λ k, inherited k = false) acc _ (bump_names _ _)).
    + rewrite has_own_app, Hown. simpl. rewrite String.eqb_refl.
      eexists. split; [done|].
      apply (Forall_names (λ k, inherited k = false)
               (acc ++ [mkSectorGroup (sector cert) 0 []])%list _ (bump_names _ _)).
      apply Forall_app. split; [done|]. by repeat constructor.
Qed.

Lemma sectors_reduce_None (acc : list SectorGroup) (certs : list Cert) :
  Forall (λ g, inherited (sg_name g) = false) acc →
  sectors_reduce acc certs = None
  ↔ existsb (λ cert, inherited (sector cert)) certs = true.
Proof.
  revert acc. induction certs as [|cert certs IH]; intros acc Hacc; simpl.
  - done.
  - pose proof (sectors_step_spec acc cert Hacc) as Hstep.
    destruct (inherited (sector cert)).
    + by rewrite Hstep.
    + destruct Hstep as (acc' & -> & Hacc'). simpl. by apply IH.
Qed.

(** The sectors view throws exactly when some record has an inherited
    name as its sector. *)
Lemma sectors_None (certs : list Cert) :
  sectors certs = None
  ↔ existsb (λ cert, inherited (sector cert)) certs = true.
Proof.
  unfold sectors. rewrite fmap_None. by apply sectors_reduce_None.
Qed.

End SectorsFacts.

Section DataUnavailable.

Context {folding : CaseFolding}.

Import Api.

(** The outcomes of the [switch]: the 200 response of one of the six
    paths, the 404 response of any other path, or an exception; the
    cached dataset is left alone and no file is read. *)
Lemma route_outcome (apiPath : string) (filters : Filters) (certs : list Cert)
    (e : Env) (s : State) :
  (certData (route apiPath filters certs e s).2 = certData s
   ∧ certDataTimestamp (route apiPath filters certs e s).2 = certDataTimestamp s
   ∧ reads (route apiPath filters certs e s).2 = reads s)
  ∧ ((Notions.throws apiPath certs e = true
      ∧ (route apiPath filters certs e s).1 = None)
     ∨ (Notions.throws apiPath certs e = false
        ∧ apiPath ∈ API_PATHS
        ∧ ∃ j, (route apiPath filters certs e s).1 = Some (ok apiPath j))
     ∨ (Notions.throws apiPath certs e = false
        ∧ (apiPath ∉ API_PATHS)
        ∧ route apiPath filters certs e s = (Some (not_found apiPath), s))).
Proof.
  unfold route, Notions.throws, API_PATHS, eff_bind.
  destruct (String.eqb_spec apiPath "/") as [->|H1].
  { split; [done|]. right. left. split; [done|].
    split; [repeat constructor | by eexists]. }
  destruct (String.eqb_spec apiPath "/certs") as [->|H2].
  { split; [done|]. right. left. split; [done|].
    split; [repeat constructor | by eexists]. }
  destruct (String.eqb_spec apiPath "/stats") as [->|H3].
  { split; [done|]. right. left. split; [done|].
    split; [repeat constructor | by eexists]. }
  destruct (String.eqb_spec apiPath "/countries") as [->|H4].
  { split; [done|]. right. left. split; [done|].
    split; [repeat constructor | by eexists]. }
  destruct (String.eqb_spec apiPath "/sectors") as [->|H5].
  { simpl. rewrite orb_false_r.
    destruct (sectors certs) as [data|] eqn:Hsectors.
    - split; [done|]. right. left. split.
      + apply not_true_is_false. rewrite <- sectors_None. by rewrite Hsectors.
      + split; [repeat constructor | by eexists].
    - split; [done|]. left. split; [by apply sectors_None | done]. }
  destruct (String.eqb_spec apiPath "/health") as [->|H6].
  { simpl. destruct (spreadLimit e <? List.length certs)%nat.
    - split; [done|]. by left.
    - split; [done|]. right. left. split; [done|].
      split; [repeat constructor | by eexists]. }
  split; [done|]. right. right. simpl. split; [done|]. split; [not_in_list | done].
Qed.

Lemma internal_error_run (e : Env) (s : State) :
  internal_error e s
  = (unexpected (clock e (ticks s)),
     mkState (certData s) (certDataTimestamp s) (S (ticks s)) (reads s)).
Proof. reflexivity. Qed.

(** The responses to a GET request. *)
Lemma handler_GET_cases (rawPath : string) (q : list (string * string))
    (e : Env) (s : State) :
  let certs := (loadCertData e s).1 in
  let r := (handler (mkEvent (Some "GET") (Some rawPath) q) e s).1 in
  (certs = [] ∧ r = data_unavailable)
  ∨ (certs ≠ [] ∧ Notions.throws (api_path rawPath) certs e = true
     ∧ ∃ t, r = unexpected t)
  ∨ (certs ≠ [] ∧ Notions.throws (api_path rawPath) certs e = false
     ∧ api_path rawPath ∈ API_PATHS ∧ ∃ j, r = ok (api_path rawPath) j)
  ∨ (certs ≠ [] ∧ Notions.throws (api_path rawPath) certs e = false
     ∧ (api_path rawPath ∉ API_PATHS) ∧ r = not_found (api_path rawPath)).
Proof.
  intros certs r. subst certs r. rewrite handler_GET.
  destruct (loadCertData e s) as [certs s']. cbv beta iota. cbn [fst].
  destruct certs as [|c certs]; [by left|]. right. simpl Nat.eqb. cbv iota.
  destruct (route_outcome (api_path rawPath) (parse_filters q) (c :: certs) e s')
    as [_ [[Hthrows Hrun]|[(Hthrows & Hin & j & Hrun)|(Hthrows & Hout & Hrun)]]].
  - left. split; [done|]. split; [done|].
    destruct (route _ _ _ e s') as [response s'']. simpl in Hrun. subst response.
    rewrite internal_error_run. by eexists.
  - right. left. split; [done|]. split; [done|]. split; [done|]. exists j.
    destruct (route _ _ _ e s') as [response s'']. simpl in Hrun. by subst response.
  - right. right. split; [done|]. split; [done|]. split; [done|]. by rewrite Hrun.
Qed.






End DataUnavailable.

Section DataUnavailableExamples.

#[local] Existing Instance ascii_folding.

Import Api.



End DataUnavailableExamples.

(** ** Response headers *)

Section ResponseHeaders.

Context {folding : CaseFolding}.

Import Spec.













End ResponseHeaders.

Section ApiHeaders.

Context {folding : CaseFolding}.

Import Spec.











End ApiHeaders.

Section HeadersClaim.

Context {folding : CaseFolding}.

Import Spec.


End HeadersClaim.

Section HeadersClaimExamples.

#[local] Existing Instance ascii_folding.

Import Spec.



End HeadersClaimExamples.

(** * Further properties of the code *)

(** ** The algebra of the filter pipeline *)

Section FilterAlgebra.

Context {folding : CaseFolding}.

Import Query Notions.

(** The pipeline distributes over the concatenation of record lists,
    applying it again with the same parameters changes nothing, two
    parameter sets may be applied in either order, and the output is
    never longer than the input. *)
Theorem filterCerts_algebra :
  (∀ (a b : list Cert) (filters : Filters),
      filterCerts (a ++ b)%list filters
      = (filterCerts a filters ++ filterCerts b filters)%list)
  ∧ (∀ (certs : list Cert) (filters : Filters),
       filterCerts (filterCerts certs filters) filters = filterCerts certs filters)
  ∧ (∀ (certs : list Cert) (f1 f2 : Filters),
       filterCerts (filterCerts certs f1) f2 = filterCerts (filterCerts certs f2) f1)
  ∧ (∀ (certs : list Cert) (filters : Filters),
       (List.length (filterCerts certs filters) ≤ List.length certs)%nat).
Proof.
  split_and!.
  - intros a b filters. rewrite !filterCerts_matches. apply List.filter_app.
  - intros certs filters. rewrite !filterCerts_matches, filter_twice.
    apply filter_pointwise. intros x _. by destruct (matches filters x).
  - intros certs f1 f2. rewrite !filterCerts_matches, !filter_twice.
    apply filter_pointwise. intros x _. apply andb_comm.
  - intros certs filters. apply sublist_length, filterCerts_sublist.
Qed.

Lemma truthy_opt_str (o : option string) : truthy_opt o = truthy (str o).
Proof. by destruct o. Qed.

Lemma truthy_of_lower (s t : string) :
  toLowerCase s = toLowerCase t → truthy s = truthy t.
Proof. intros Hst. by rewrite <- (toLowerCase_truthy s), Hst, toLowerCase_truthy. Qed.

(** The parameters are read without regard to case, the literal [all]
    apart: two parameter sets that agree up to case in search, sector and
    country, that name the literal [all] as sector both or neither, and
    that have [pgp] equal to [true] both or neither, select the same
    records.  A sector that is [all] in another case is no wildcard: it
    selects the records whose sector is [all] up to case. *)
Theorem filterCerts_case :
  (∀ (certs : list Cert) (f1 f2 : Filters),
      toLowerCase (str (f_search f1)) = toLowerCase (str (f_search f2)) →
      toLowerCase (str (f_sector f1)) = toLowerCase (str (f_sector f2)) →
      (f_sector f1 = Some "all" ↔ f_sector f2 = Some "all") →
      toLowerCase (str (f_country f1)) = toLowerCase (str (f_country f2)) →
      (f_pgp f1 = Some "true" ↔ f_pgp f2 = Some "true") →
      filterCerts certs f1 = filterCerts certs f2)
  ∧ (∀ (certs : list Cert) (s : string),
       s ≠ "all" → toLowerCase s = "all" →
       filterCerts certs (mkFilters None (Some s) None None)
       = List.filter (λ cert, String.eqb (toLowerCase (sector cert)) "all") certs
       ∧ filterCerts certs (mkFilters None (Some "all") None None) = certs).
Proof.
  split.
  - intros certs f1 f2 Hsearch Hsector Hall Hcountry Hpgp.
    rewrite !filterCerts_matches. apply filter_pointwise. intros x _.
    unfold matches, search_on, sector_on, country_on, pgp_on,
      sector_pred, country_pred.
    rewrite !truthy_opt_str.
    rewrite (truthy_of_lower _ _ Hsearch), (truthy_of_lower _ _ Hsector),
      (truthy_of_lower _ _ Hcountry), Hsearch, Hsector, Hcountry.
    rewrite (bool_decide_ext _ _ Hall), (bool_decide_ext _ _ Hpgp). done.
  - intros certs s Hne Hlow. split; [|done].
    unfold filterCerts, search_on, sector_on, country_on, pgp_on, sector_pred.
    simpl.
    rewrite (proj2 (truthy_true s))
      by (intros ->; rewrite toLowerCase_nil in Hlow; discriminate).
    rewrite bool_decide_eq_false_2 by congruence. simpl. by rewrite Hlow.
Qed.

(** What the page shows for a search text and a sector is part of what
    the API returns for the same two parameters, in the same order; and
    with both inputs empty the page shows every record. *)
Theorem applyFilters_within_api :
  ∀ (certs : list Cert) (search sector_value : string),
    sublist (Browser.applyFilters certs search sector_value)
            (filterCerts certs (mkFilters (Some search) (Some sector_value) None None))
    ∧ Browser.applyFilters certs "" "" = certs.
Proof.
  intros certs search sector_value. split.
  - rewrite filterCerts_matches. apply filter_sublist_weaker. intros cert.
    unfold Browser.matchesSearch, Browser.matchesSector, matches, search_on,
      sector_on, country_on, pgp_on, search_pred, sector_pred. simpl.
    intros Hboth. apply andb_true_iff in Hboth as [Hsearch Hsector].
    rewrite !andb_true_r. apply andb_true_iff. split.
    + destruct (truthy search); simpl in *; [|done].
      rewrite !orb_true_iff in *. tauto.
    + destruct (truthy sector_value); simpl in *; [|done].
      apply String.eqb_eq in Hsector. rewrite <- Hsector, String.eqb_refl.
      apply orb_true_r.
  - unfold Browser.applyFilters. simpl.
    induction certs as [|c certs IH]; simpl; congruence.
Qed.

Lemma hasValidPgpKey_keyId (cert : Cert) :
  Api.hasValidPgpKey cert = true → pgp_pred cert = true →
  ∃ k id, pgpKey cert = Some k ∧ available k = true
          ∧ keyId k = Some id ∧ id ≠ "".
Proof.
  unfold Api.hasValidPgpKey, pgp_pred. destruct (pgpKey cert) as [k|]; [|done].
  intros Hvalid Havail. rewrite Havail in Hvalid. simpl in Hvalid.
  destruct (keyId k) as [id|] eqn:Hid; [|done]. exists k, id.
  split; [done|]. split; [done|]. split; [done|]. by apply truthy_true.
Qed.

(** In a dataset that [validateCertData] accepts, every record that the
    PGP filter lets through has a key id that is not empty. *)
Theorem validated_pgp_has_keyId :
  ∀ (certs : list Cert) (filters : Filters) (cert : Cert),
    Api.validateCertData certs = true →
    f_pgp filters = Some "true" →
    cert ∈ filterCerts certs filters →
    ∃ k id, pgpKey cert = Some k ∧ available k = true
            ∧ keyId k = Some id ∧ id ≠ "".
Proof.
  intros certs filters cert Hvalid Hpgp Hin.
  apply list_elem_of_In in Hin. rewrite filterCerts_matches in Hin.
  apply filter_In in Hin as [Hin Hmatch].
  apply hasValidPgpKey_keyId.
  - unfold Api.validateCertData in Hvalid.
    rewrite forallb_forall in Hvalid. by apply Hvalid.
  - unfold matches in Hmatch. rewrite !andb_true_iff in Hmatch.
    destruct Hmatch as (_ & Hp). unfold pgp_on in Hp.
    rewrite bool_decide_eq_true_2 in Hp by done. done.
Qed.

End FilterAlgebra.

Section FilterAlgebraExamples.

#[local] Existing Instance ascii_folding.

Import Query Notions.

Lemma filterCerts_case_witness :
  filterCerts Sample.certs (mkFilters (Some "JAPAN") (Some "NATIONAL") None None)
  = filterCerts Sample.certs (mkFilters (Some "japan") (Some "national") (Some "") None)
  ∧ filterCerts Sample.certs (mkFilters None (Some "ALL") None None) = [].
Proof.
  split.
  - apply (proj1 filterCerts_case); try reflexivity; split; discriminate.
  - rewrite (proj1 (proj2 filterCerts_case Sample.certs "ALL"
                      ltac:(discriminate) eq_refl)).
    reflexivity.
Defined.

Lemma validated_pgp_has_keyId_witness :
  ∃ k id, pgpKey Sample.japan = Some k ∧ available k = true
          ∧ keyId k = Some id ∧ id ≠ "".
Proof.
  apply (validated_pgp_has_keyId Sample.certs (mkFilters None None None (Some "true"))).
  - reflexivity.
  - reflexivity.
  - apply list_elem_of_In. vm_compute. by left.
Defined.

End FilterAlgebraExamples.

(** ** The static handler: methods, state and cache *)

Section StaticState.

Context {folding : CaseFolding}.

Import Static.

(** The three outcomes of a lookup: answered from the cache, read from
    disk and stored, or read in vain. *)
Lemma getCachedFile_outcome (filePath : string) (e : Env) (s : State) :
  (∃ entry, cache s !! filePath = Some entry
            ∧ clock e (ticks s) - timestamp entry < CACHE_TTL
            ∧ getCachedFile filePath e s
              = (Some (content entry), mkState (cache s) (S (ticks s)) (reads s)))
  ∨ (∃ c, disk e filePath = Some c
          ∧ getCachedFile filePath e s
            = (Some c,
               mkState (<[filePath := mkCacheEntry c (clock e (ticks s))]> (cache s))
                       (S (ticks s)) (filePath :: reads s)))
  ∨ (disk e filePath = None
     ∧ getCachedFile filePath e s
       = (None, mkState (cache s) (S (ticks s)) (filePath :: reads s))).
Proof.
  assert (Hread : getCachedFile filePath e s = after_read e s filePath →
                  (∃ c, disk e filePath = Some c
                        ∧ getCachedFile filePath e s
                          = (Some c,
                             mkState (<[filePath := mkCacheEntry c (clock e (ticks s))]>
                                        (cache s))
                                     (S (ticks s)) (filePath :: reads s)))
                  ∨ (disk e filePath = None
                     ∧ getCachedFile filePath e s
                       = (None, mkState (cache s) (S (ticks s)) (filePath :: reads s)))).
  { intros ->. unfold after_read. destruct (disk e filePath) as [c|].
    - left. by exists c.
    - by right. }
  destruct (cache s !! filePath) as [entry|] eqn:Hentry.
  - destruct (Z.lt_ge_cases (clock e (ticks s) - timestamp entry) CACHE_TTL)
      as [Hfresh|Hold].
    + left. exists entry. split_and!; try done. by apply getCachedFile_hit.
    + right. apply Hread. by apply (getCachedFile_expired e s filePath entry).
  - right. apply Hread. by apply getCachedFile_absent.
Qed.

Lemma handler_no_method (event : Event) (e : Env) (s : State) :
  ev_method event = None →
  statusCode (handler event e s).1 = 500 ∧ (handler event e s).2 = s.
Proof. intros Hm. unfold handler. by rewrite Hm. Qed.

Lemma handler_other_method (event : Event) (e : Env) (s : State) (method : string) :
  ev_method event = Some method → method ≠ "GET" →
  (handler event e s).2 = s
  ∧ (method = "OPTIONS" →
     statusCode (handler event e s).1 = 200
     ∧ body (handler event e s).1 = BodyLiteral "")
  ∧ (method ≠ "OPTIONS" →
     statusCode (handler event e s).1 = 405
     ∧ body (handler event e s).1
       = BodyJson (mkErrorJson "Method Not Allowed"
                     ("HTTP method " ++ method ++ " is not supported"))).
Proof.
  intros Hm Hget. unfold handler. rewrite Hm.
  destruct (String.eqb_spec method "OPTIONS") as [->|Hopt].
  - by split_and!.
  - apply String.eqb_neq in Hget. rewrite Hget. by split_and!.
Qed.

Lemma handler_GET_run (event : Event) (e : Env) (s : State) :
  ev_method event = Some "GET" →
  statusCode (handler event e s).1
  = statusCode (handleStaticFile (request_path event) e s).1
  ∧ body (handler event e s).1 = body (handleStaticFile (request_path event) e s).1
  ∧ isBase64Encoded (handler event e s).1
    = isBase64Encoded (handleStaticFile (request_path event) e s).1
  ∧ (handler event e s).2 = (handleStaticFile (request_path event) e s).2.
Proof.
  intros Hm. unfold handler, eff_bind. rewrite Hm. simpl.
  by destruct (handleStaticFile (request_path event) e s).
Qed.

(** The disk reads of one run of [handleStaticFile]: none, the file,
    or the file and then the root document. *)
Lemma handleStaticFile_reads (requestedPath : string) (e : Env) (s : State) :
  (statusCode (handleStaticFile requestedPath e s).1 = 200
   ∨ statusCode (handleStaticFile requestedPath e s).1 = 404)
  ∧ (reads (handleStaticFile requestedPath e s).2 = reads s
     ∨ reads (handleStaticFile requestedPath e s).2
       = resolve requestedPath :: reads s
     ∨ reads (handleStaticFile requestedPath e s).2
       = "dist/index.html" :: resolve requestedPath :: reads s).
Proof.
  rewrite handleStaticFile_run.
  destruct (getCachedFile_outcome (resolve requestedPath) e s)
    as [(entry & _ & _ & ->)|[(c & _ & ->)|[_ ->]]]; simpl.
  - split; [by left | by left].
  - split; [by left | right; by left].
  - match goal with |- context [getCachedFile "dist/index.html" e ?s1] =>
      destruct (getCachedFile_outcome "dist/index.html" e s1)
        as [(entry & _ & _ & ->)|[(c & _ & ->)|[_ ->]]]; simpl
    end.
    + split; [by left | right; by left].
    + split; [by left | right; by right].
    + split; [by right | right; by right].
Qed.

(** Only GET reaches the files.  An event without a method is answered
    with 500, OPTIONS with 200 and an empty body, any method other than
    OPTIONS and GET with 405 and a body that names the method; in all
    three the cache, the clock and the disk are left alone.  GET is
    answered with 200 or 404 after at most two reads from disk: the
    file asked for, then the root document.  Methods are compared as
    they are written. *)
Theorem static_handler_methods :
  ∀ (event : Event) (e : Env) (s : State),
    (ev_method event = None →
     statusCode (handler event e s).1 = 500 ∧ (handler event e s).2 = s)
    ∧ (∀ method, ev_method event = Some method → method ≠ "GET" →
         (handler event e s).2 = s
         ∧ (method = "OPTIONS" →
            statusCode (handler event e s).1 = 200
            ∧ body (handler event e s).1 = BodyLiteral "")
         ∧ (method ≠ "OPTIONS" →
            statusCode (handler event e s).1 = 405
            ∧ body (handler event e s).1
              = BodyJson (mkErrorJson "Method Not Allowed"
                            ("HTTP method " ++ method ++ " is not supported"))))
    ∧ (ev_method event = Some "GET" →
       (statusCode (handler event e s).1 = 200
        ∨ statusCode (handler event e s).1 = 404)
       ∧ (reads (handler event e s).2 = reads s
          ∨ reads (handler event e s).2
            = resolve (request_path event) :: reads s
          ∨ reads (handler event e s).2
            = "dist/index.html" :: resolve (request_path event) :: reads s)).
Proof.
  intros event e s. split_and!.
  - apply handler_no_method.
  - intros method. apply handler_other_method.
  - intros Hget. destruct (handler_GET_run event e s Hget) as (-> & _ & _ & ->).
    apply handleStaticFile_reads.
Qed.

End StaticState.

Section StaticStateExamples.

#[local] Existing Instance ascii_folding.

Import Static.

Lemma static_handler_methods_witness :
  (statusCode (handler (mkEvent None None []) Sample.static_env initial).1 = 500)
  ∧ (statusCode (handler (mkEvent (Some "get") (Some "/") []) Sample.static_env
                   initial).1 = 405
     ∧ (handler (mkEvent (Some "get") (Some "/") []) Sample.static_env initial).2
       = initial)
  ∧ (statusCode (handler (mkEvent (Some "OPTIONS") (Some "/") []) Sample.static_env
                   initial).1 = 200)
  ∧ (reads (handler (Sample.get "/about" []) Sample.static_env initial).2
     = ["dist/index.html"; "dist/about"]).
Proof.
  split; [|split; [|split]].
  - apply (proj1 (static_handler_methods (mkEvent None None [])
                    Sample.static_env initial) eq_refl).
  - destruct (proj1 (proj2 (static_handler_methods
                              (mkEvent (Some "get") (Some "/") [])
                              Sample.static_env initial)) "get" eq_refl
                ltac:(discriminate)) as (Hstate & _ & Hother).
    split; [apply Hother; discriminate | exact Hstate].
  - destruct (proj1 (proj2 (static_handler_methods
                              (mkEvent (Some "OPTIONS") (Some "/") [])
                              Sample.static_env initial)) "OPTIONS" eq_refl
                ltac:(discriminate)) as (_ & Hopt & _).
    apply Hopt. reflexivity.
  - destruct (proj2 (proj2 (static_handler_methods (Sample.get "/about" [])
                              Sample.static_env initial)) eq_refl)
      as [_ [H|[H|H]]].
    + vm_compute in H. discriminate.
    + vm_compute in H. discriminate.
    + exact H.
Defined.

End StaticStateExamples.

Section StaticCache.

Context {folding : CaseFolding}.

Import Static.

Lemma handleStaticFile_cache (requestedPath : string) (e : Env) (s : State) :
  cache (handleStaticFile requestedPath e s).2 = cache s
  ∨ (∃ c, disk e (resolve requestedPath) = Some c
          ∧ cache (handleStaticFile requestedPath e s).2
            = <[resolve requestedPath := mkCacheEntry c (clock e (ticks s))]>
                (cache s))
  ∨ (∃ c, disk e (resolve requestedPath) = None
          ∧ disk e "dist/index.html" = Some c
          ∧ cache (handleStaticFile requestedPath e s).2
            = <["dist/index.html" := mkCacheEntry c (clock e (S (ticks s)))]>
                (cache s)).
Proof.
  rewrite handleStaticFile_run.
  destruct (getCachedFile_outcome (resolve requestedPath) e s)
    as [(entry & _ & _ & ->)|[(c & Hc & ->)|[Hnone ->]]]; simpl.
  - by left.
  - right. left. by exists c.
  - match goal with |- context [getCachedFile "dist/index.html" e ?s1] =>
      destruct (getCachedFile_outcome "dist/index.html" e s1)
        as [(entry & _ & _ & ->)|[(c & Hc & ->)|[_ ->]]]; simpl
    end.
    + by left.
    + right. right. by exists c.
    + by left.
Qed.

(** One request writes at most one cache entry: that of the file asked
    for, or, when that file cannot be read, that of the root document;
    the entry holds what the disk has, under the clock reading of its
    lookup.  No request removes an entry, and a request with a method
    other than GET leaves the cache as it is. *)
Theorem static_cache_writes :
  ∀ (event : Event) (e : Env) (s : State),
    (cache (handler event e s).2 = cache s
     ∨ (∃ c, ev_method event = Some "GET"
             ∧ disk e (resolve (request_path event)) = Some c
             ∧ cache (handler event e s).2
               = <[resolve (request_path event)
                   := mkCacheEntry c (clock e (ticks s))]> (cache s))
     ∨ (∃ c, ev_method event = Some "GET"
             ∧ disk e (resolve (request_path event)) = None
             ∧ disk e "dist/index.html" = Some c
             ∧ cache (handler event e s).2
               = <["dist/index.html" := mkCacheEntry c (clock e (S (ticks s)))]>
                   (cache s)))
    ∧ dom (cache s) ⊆ dom (cache (handler event e s).2).
Proof.
  intros event e s.
  assert (Hcases :
    cache (handler event e s).2 = cache s
    ∨ (∃ c, ev_method event = Some "GET"
            ∧ disk e (resolve (request_path event)) = Some c
            ∧ cache (handler event e s).2
              = <[resolve (request_path event)
                  := mkCacheEntry c (clock e (ticks s))]> (cache s))
    ∨ (∃ c, ev_method event = Some "GET"
            ∧ disk e (resolve (request_path event)) = None
            ∧ disk e "dist/index.html" = Some c
            ∧ cache (handler event e s).2
              = <["dist/index.html" := mkCacheEntry c (clock e (S (ticks s)))]>
                  (cache s))).
  { destruct (ev_method event) as [method|] eqn:Hm.
    - destruct (String.eqb_spec method "GET") as [->|Hget].
      + destruct (handler_GET_run event e s Hm) as (_ & _ & _ & ->).
        destruct (handleStaticFile_cache (request_path event) e s)
          as [H|[(c & Hc & H)|(c & Hn & Hc & H)]].
        * by left.
        * right. left. by exists c.
        * right. right. by exists c.
      + left. by destruct (handler_other_method event e s method Hm Hget) as [-> _].
    - left. by destruct (handler_no_method event e s Hm) as [_ ->]. }
  split; [exact Hcases|].
  destruct Hcases as [->|[(c & _ & _ & ->)|(c & _ & _ & _ & ->)]].
  - done.
  - rewrite dom_insert. set_solver.
  - rewrite dom_insert. set_solver.
Qed.

(** While the cache agrees with the disk, a GET is answered with 404
    exactly when neither the file asked for nor the root document can
    be read, and the cache agrees with the disk afterwards too. *)
Theorem static_not_found_iff :
  ∀ (event : Event) (e : Env) (s : State),
    ev_method event = Some "GET" → coherent e s →
    (statusCode (handler event e s).1 = 404
     ↔ disk e (resolve (request_path event)) = None
       ∧ disk e "dist/index.html" = None)
    ∧ coherent e (handler event e s).2.
Proof.
  intros event e s Hget Hco.
  destruct (handler_GET_run event e s Hget) as (-> & _ & _ & ->).
  split; [|by apply handleStaticFile_coherent].
  rewrite handleStaticFile_run.
  destruct (getCachedFile_coherent e s (resolve (request_path event)) Hco)
    as [Hfile Hco1].
  destruct (getCachedFile (resolve (request_path event)) e s) as [content s1].
  simpl in Hfile, Hco1. rewrite <- Hfile.
  destruct content as [content|]; simpl.
  - split; [done | by intros [? _]].
  - destruct (getCachedFile_coherent e s1 "dist/index.html" Hco1) as [Hindex _].
    destruct (getCachedFile "dist/index.html" e s1) as [indexContent s2].
    simpl in Hindex. rewrite <- Hindex.
    destruct indexContent; simpl; [split; [done | by intros [_ ?]] | done].
Qed.

(** A file that a lookup has returned is in the cache, and until its
    entry is [CACHE_TTL] old the same request is answered with the same
    response without a read from disk, whatever the disk holds by
    then. *)
Theorem static_served_from_memory :
  ∀ (e0 : Env) (s0 s1 : State) (requestedPath : string) (c : Buffer),
    getCachedFile (resolve requestedPath) e0 s0 = (Some c, s1) →
    ∃ entry,
      cache s1 !! resolve requestedPath = Some entry
      ∧ content entry = c
      ∧ (reads s1 ≠ reads s0 → timestamp entry = clock e0 (ticks s0))
      ∧ ∀ e1 : Env,
          clock e1 (ticks s1) - timestamp entry < CACHE_TTL →
          handleStaticFile requestedPath e1 s1
          = ((handleStaticFile requestedPath e0 s0).1,
             mkState (cache s1) (S (ticks s1)) (reads s1)).
Proof.
  intros e0 s0 s1 requestedPath c Hfound.
  assert (Hresponse : (handleStaticFile requestedPath e0 s0).1
                      = file_response (resolve requestedPath) c).
  { by rewrite handleStaticFile_run, Hfound. }
  rewrite Hresponse.
  destruct (getCachedFile_outcome (resolve requestedPath) e0 s0)
    as [(entry & Hentry & _ & Hrun)|[(c' & Hc' & Hrun)|[_ Hrun]]];
    rewrite Hrun in Hfound; simplify_eq.
  - exists entry. split_and!; try done.
    intros e1 Hfresh. rewrite handleStaticFile_run.
    by rewrite (getCachedFile_hit e1 _ _ entry).
  - eexists. split; [apply lookup_insert_eq|]. split_and!; try done.
    intros e1 Hfresh. rewrite handleStaticFile_run.
    rewrite (getCachedFile_hit e1 _ _ (mkCacheEntry c (clock e0 (ticks s0))));
      [done | apply lookup_insert_eq | done].
Qed.

End StaticCache.

Section StaticCacheExamples.

#[local] Existing Instance ascii_folding.

Import Static.

Lemma static_not_found_iff_witness :
  (statusCode (handler (Sample.get "/nowhere" []) Sample.empty_disk initial).1 = 404)
  ∧ coherent Sample.static_env
      (handler (Sample.get "/logo.png" []) Sample.static_env initial).2.
Proof.
  split.
  - apply (proj1 (static_not_found_iff (Sample.get "/nowhere" []) Sample.empty_disk
                    initial eq_refl (coherent_initial _))).
    by split.
  - apply (proj2 (static_not_found_iff (Sample.get "/logo.png" []) Sample.static_env
                    initial eq_refl (coherent_initial _))).
Defined.

Lemma static_served_from_memory_witness :
  handleStaticFile "/logo.png" Sample.empty_disk
    (mkState {["dist/logo.png" := mkCacheEntry Sample.png 0]} 1 ["dist/logo.png"])
  = (file_response "dist/logo.png" Sample.png,
     mkState {["dist/logo.png" := mkCacheEntry Sample.png 0]} 2 ["dist/logo.png"]).
Proof.
  destruct (static_served_from_memory Sample.static_env initial
              (mkState {["dist/logo.png" := mkCacheEntry Sample.png 0]} 1
                 ["dist/logo.png"])
              "/logo.png" Sample.png eq_refl)
    as (entry & Hentry & Hcontent & Htime & Hnext).
  assert (Ht : timestamp entry = 0) by (apply Htime; discriminate).
  rewrite (Hnext Sample.empty_disk).
  - reflexivity.
  - rewrite Ht. vm_compute. reflexivity.
Defined.

End StaticCacheExamples.

(** ** Content policy by file extension *)

Section ExtensionPolicy.

Context {folding : CaseFolding}.

Import Static.

(** What the table says of each of its extensions. *)
Lemma mimeTypes_classes :
  map_Forall
    (λ ext type,
       (isText type = true ↔ ext ∈ [".html"; ".css"; ".js"; ".json"])
       ∧ (type = "text/html" ↔ ext = ".html")
       ∧ (type = "application/json" ↔ ext = ".json"))
    mimeTypes.
Proof. refine (bool_decide_unpack _ _). vm_compute. exact I. Qed.

Lemma getContentType_classes (filePath : string) :
  (isText (getContentType filePath) = true
   ↔ toLowerCase (Path.extname filePath) ∈ [".html"; ".css"; ".js"; ".json"])
  ∧ (getContentType filePath = "text/html"
     ↔ toLowerCase (Path.extname filePath) = ".html")
  ∧ (getContentType filePath = "application/json"
     ↔ toLowerCase (Path.extname filePath) = ".json").
Proof.
  rewrite getContentType_table.
  destruct (mimeTypes !! toLowerCase (Path.extname filePath)) as [type|] eqn:Hext.
  - apply (mimeTypes_classes _ _ Hext).
  - simpl. split_and!.
    + split; [done|]. rewrite !elem_of_cons, elem_of_nil.
      intros [H|[H|[H|[H|[]]]]]; rewrite H in Hext; vm_compute in Hext;
        discriminate.
    + split; [done|]. intros H. rewrite H in Hext. vm_compute in Hext. discriminate.
    + split; [done|]. intros H. rewrite H in Hext. vm_compute in Hext. discriminate.
Qed.

Lemma cacheControl_inv (contentType : string) :
  (cacheControl contentType = "no-cache, no-store, must-revalidate"
   ↔ contentType = "text/html")
  ∧ (cacheControl contentType = "public, max-age=3600"
     ↔ contentType = "application/json").
Proof.
  unfold cacheControl.
  destruct (String.eqb_spec contentType "text/html") as [->|Hhtml].
  - split; [done|]. split; discriminate.
  - destruct (String.eqb_spec contentType "application/json") as [->|Hjson].
    + split; [|done]. split; discriminate.
    + split; (split; [discriminate | done]).
Qed.

(** The response for a file goes by its extension, read without regard
    to case: the body is text (not base64) exactly for [.html], [.css],
    [.js] and [.json]; [Cache-Control] is [no-cache, no-store,
    must-revalidate] exactly for [.html] and [public, max-age=3600]
    exactly for [.json]; every other file, of an extension in the table
    or not, is sent base64-encoded and cacheable for a year. *)
Theorem policy_by_extension :
  ∀ (filePath : string) (content : Buffer),
    (isBase64Encoded (file_response filePath content) = Some false
     ↔ toLowerCase (Path.extname filePath) ∈ [".html"; ".css"; ".js"; ".json"])
    ∧ (body (file_response filePath content) = BodyUtf8 content
       ↔ toLowerCase (Path.extname filePath) ∈ [".html"; ".css"; ".js"; ".json"])
    ∧ (headers (file_response filePath content) !! "Cache-Control"
       = Some "no-cache, no-store, must-revalidate"
       ↔ toLowerCase (Path.extname filePath) = ".html")
    ∧ (headers (file_response filePath content) !! "Cache-Control"
       = Some "public, max-age=3600"
       ↔ toLowerCase (Path.extname filePath) = ".json")
    ∧ (toLowerCase (Path.extname filePath) ∉ [".html"; ".css"; ".js"; ".json"] →
       body (file_response filePath content) = BodyBase64 content
       ∧ headers (file_response filePath content) !! "Cache-Control"
         = Some "public, max-age=31536000, immutable").
Proof.
  intros filePath content.
  destruct (getContentType_classes filePath) as (Htext & Hhtml & Hjson).
  destruct (cacheControl_inv (getContentType filePath)) as (Hcc1 & Hcc2).
  rewrite file_response_Cache_Control. unfold file_response. simpl.
  split_and!.
  - rewrite <- Htext. destruct (isText (getContentType filePath)); simpl.
    + done.
    + split; intros; discriminate.
  - rewrite <- Htext. destruct (isText (getContentType filePath)); simpl.
    + done.
    + split; intros; discriminate.
  - rewrite <- Hhtml, <- Hcc1. split; [by intros [= ->] | by intros ->].
  - rewrite <- Hjson, <- Hcc2. split; [by intros [= ->] | by intros ->].
  - intros Hother. rewrite <- Htext in Hother. apply not_true_is_false in Hother.
    rewrite Hother. split; [done|].
    destruct (cacheControl_class (getContentType filePath)) as (_ & _ & Hyear).
    rewrite Hyear; [done| |].
    + intros Hc. rewrite Hc in Hother. vm_compute in Hother. discriminate.
    + intros Hc. rewrite Hc in Hother. vm_compute in Hother. discriminate.
Qed.

End ExtensionPolicy.

Section ExtensionPolicyExamples.

#[local] Existing Instance ascii_folding.

Import Static.

Lemma policy_by_extension_witness :
  body (file_response "dist/Logo.SVG" Sample.png) = BodyBase64 Sample.png
  ∧ headers (file_response "dist/Logo.SVG" Sample.png) !! "Cache-Control"
    = Some "public, max-age=31536000, immutable".
Proof.
  apply (proj2 (proj2 (proj2 (proj2
           (policy_by_extension "dist/Logo.SVG" Sample.png))))).
  change (toLowerCase (Path.extname "dist/Logo.SVG")) with ".svg". not_in_list.
Defined.

End ExtensionPolicyExamples.

(** ** Request paths and the asset root *)

Section PathFacts.

Import Path Static Notions.

Lemma includes_slash_cons (c : ascii) (x : string) :
  includes (String c x) "/" = Ascii.eqb c slash || includes x "/".
Proof. simpl. unfold slash. by destruct (Ascii.eqb c "/"). Qed.

Lemma no_slash_chars (x : string) :
  includes x "/" = false →
  Forall (λ c, Ascii.eqb c slash = false) (list_ascii_of_string x).
Proof.
  induction x as [|c x IH]; simpl list_ascii_of_string; [constructor|].
  rewrite includes_slash_cons, orb_false_iff. intros [Hc Hx].
  constructor; [done | by apply IH].
Qed.

Lemma split_slash_plain (x : string) :
  includes x "/" = false → split_slash x = [x].
Proof.
  induction x as [|c x IH]; [done|].
  rewrite includes_slash_cons, orb_false_iff. intros [Hc Hx].
  simpl. rewrite Hc, (IH Hx). done.
Qed.

Lemma split_slash_no_slash (s : string) :
  Forall (λ seg, includes seg "/" = false) (split_slash s).
Proof.
  induction s as [|c s IH]; simpl.
  - by constructor.
  - destruct (Ascii.eqb c slash) eqn:Hc.
    + by constructor.
    + destruct (split_slash s) as [|seg segs].
      * constructor; [|done]. by rewrite includes_slash_cons, Hc.
      * inversion IH; subst. constructor; [|done].
        by rewrite includes_slash_cons, Hc.
Qed.

Lemma split_slash_under_dist (filePath : string) :
  split_slash ("dist" ++ "/" ++ filePath) = "dist" :: split_slash filePath.
Proof.
  change ("dist" ++ "/" ++ filePath)
    with (String "d" (String "i" (String "s" (String "t" (String "/" filePath))))).
  reflexivity.
Qed.

Lemma fold_push_segment (segs st : list string) :
  ".." ∉ segs →
  fold_left push_segment segs st
  = (List.rev (List.filter kept_segment segs) ++ st)%list.
Proof.
  revert st. induction segs as [|seg segs IH]; intros st Hno; simpl; [done|].
  apply not_elem_of_cons in Hno as [Hseg Hno].
  rewrite IH by done. unfold push_segment, kept_segment.
  destruct (String.eqb seg "" || String.eqb seg "."); simpl; [done|].
  rewrite (proj2 (String.eqb_neq seg "..")) by congruence.
  by rewrite <- app_assoc.
Qed.

Lemma list_ascii_of_string_app (a b : string) :
  list_ascii_of_string (a ++ b)
  = (list_ascii_of_string a ++ list_ascii_of_string b)%list.
Proof. induction a as [|c a IH]; [done|]. rewrite append_String. simpl. by rewrite IH. Qed.

Lemma ends_with_slash_plain (pre x : string) :
  x ≠ "" → includes x "/" = false → ends_with_slash (pre ++ x) = false.
Proof.
  intros Hne Hx. unfold ends_with_slash.
  rewrite list_ascii_of_string_app, rev_app_distr.
  pose proof (no_slash_chars x Hx) as Hchars.
  apply Forall_rev in Hchars.
  destruct (List.rev (list_ascii_of_string x)) as [|c l] eqn:Hrev.
  - destruct x; [done|]. apply (f_equal List.length) in Hrev.
    rewrite length_rev in Hrev. simpl in Hrev. discriminate.
  - simpl. by inversion Hchars.
Qed.

Lemma join_slash_dist (names : list string) :
  ∃ rest, join_slash ("dist" :: names) = String "d" rest.
Proof. destruct names; simpl; by eexists. Qed.

End PathFacts.

Section PathClaims.

Context {folding : CaseFolding}.

Import Path Static Notions.

Lemma normalize_under_dist (filePath : string) :
  ".." ∉ split_slash filePath →
  ∃ names,
    Forall plain_name names
    ∧ (normalize_relative ("dist" ++ "/" ++ filePath) = join_slash ("dist" :: names)
       ∨ normalize_relative ("dist" ++ "/" ++ filePath)
         = join_slash ("dist" :: names) ++ "/").
Proof.
  intros Hno. exists (List.filter kept_segment (split_slash filePath)). split.
  - apply Forall_forall. intros seg Hseg.
    apply list_elem_of_In, filter_In in Hseg as [Hin Hkept].
    unfold kept_segment in Hkept.
    rewrite negb_true_iff, orb_false_iff, !String.eqb_neq in Hkept.
    destruct Hkept as [Hempty Hdot]. split_and!; try done.
    + intros ->. apply Hno. by apply list_elem_of_In.
    + pose proof (split_slash_no_slash filePath) as Hall.
      rewrite Forall_forall in Hall. apply Hall. by apply list_elem_of_In.
  - unfold normalize_relative.
    rewrite split_slash_under_dist. simpl fold_left.
    rewrite fold_push_segment by done.
    rewrite rev_app_distr, rev_involutive. simpl List.rev. simpl app.
    destruct (join_slash_dist (List.filter kept_segment (split_slash filePath)))
      as [rest Hrest].
    rewrite Hrest. simpl String.eqb. rewrite <- Hrest.
    destruct (ends_with_slash _); [by right | by left].
Qed.

(** A request path without a [..] segment names a path under [dist]:
    [dist] followed by the segments of the request path that are
    neither empty nor [.], with the trailing separator kept. *)
Theorem resolve_under_dist :
  ∀ requestedPath : string,
    ".." ∉ split_slash requestedPath →
    ∃ names,
      Forall plain_name names
      ∧ (resolve requestedPath = join_slash ("dist" :: names)
         ∨ resolve requestedPath = join_slash ("dist" :: names) ++ "/").
Proof.
  intros requestedPath Hno. unfold resolve.
  destruct (String.eqb_spec requestedPath "/") as [->|Hroot].
  - exists ["index.html"]. split; [|by left].
    constructor; [|done]. by split_and!.
  - assert (Hfile : ∃ filePath,
              (if startsWith requestedPath "/" then slice1 requestedPath
               else requestedPath) = filePath
              ∧ ".." ∉ split_slash filePath).
    { destruct requestedPath as [|c rest]; [by exists ""|].
      simpl. destruct (Ascii.eqb_spec c "/") as [->|Hc].
      - exists rest. split; [done|]. simpl in Hno.
        by apply not_elem_of_cons in Hno as [_ ?].
      - by eexists. }
    destruct Hfile as (filePath & -> & Hfile). unfold join.
    destruct (String.eqb_spec filePath "") as [->|Hne].
    + exists []. split; [done | by left].
    + by apply normalize_under_dist.
Qed.

Lemma resolve_under_dist_witness :
  ∃ names,
    Forall plain_name names
    ∧ (resolve "//css/./style.css" = join_slash ("dist" :: names)
       ∨ resolve "//css/./style.css" = join_slash ("dist" :: names) ++ "/").
Proof.
  apply resolve_under_dist.
  change (split_slash "//css/./style.css") with [""; ""; "css"; "."; "style.css"].
  not_in_list.
Defined.

(** A request path that begins with [/../] leaves the asset root: for a
    file name [x], [/../x] names the file [x] beside [dist], and when
    that file can be read it is what the resolver sends. *)
Theorem resolve_parent_escapes :
  ∀ x : string,
    plain_name x →
    resolve ("/../" ++ x) = x
    ∧ ∀ (e : Env) (s : State) (c : Buffer),
        coherent e s → disk e x = Some c →
        (handleStaticFile ("/../" ++ x) e s).1 = file_response x c.
Proof.
  intros x (Hne & Hdot & Hdotdot & Hslash).
  assert (Hresolve : resolve ("/../" ++ x) = x).
  { change (resolve ("/../" ++ x)) with (normalize_relative ("dist/../" ++ x)).
    assert (Hsplit : split_slash ("dist/../" ++ x) = ["dist"; ".."; x]).
    { change ("dist/../" ++ x) with ("dist" ++ "/" ++ String "." (String "." (String "/" x))).
      rewrite split_slash_under_dist. simpl.
      by rewrite (split_slash_plain x Hslash). }
    unfold normalize_relative.
    rewrite ends_with_slash_plain, Hsplit by done. simpl fold_left.
    change (push_segment (push_segment [] "dist") "..") with (@nil string).
    unfold push_segment.
    rewrite (proj2 (String.eqb_neq x "")), (proj2 (String.eqb_neq x ".")),
      (proj2 (String.eqb_neq x "..")) by done.
    simpl. by rewrite (proj2 (String.eqb_neq x "")). }
  split; [done|]. intros e s c Hco Hdisk.
  rewrite handleStaticFile_run, Hresolve.
  destruct (getCachedFile_coherent e s x Hco) as [Hfile _].
  destruct (getCachedFile x e s) as [r s1]. simpl in Hfile.
  by rewrite Hfile, Hdisk.
Qed.

End PathClaims.

Section PathClaimsExamples.

#[local] Existing Instance ascii_folding.

Import Path Static Notions.

Lemma resolve_parent_escapes_witness :
  resolve "/../package.json" = "package.json"
  ∧ (handleStaticFile "/../package.json"
       (mkEnv Sample.second_clock
          (λ filePath, if String.eqb filePath "package.json" then Some Sample.json
                       else None))
       initial).1
    = file_response "package.json" Sample.json.
Proof.
  assert (Hname : plain_name "package.json") by by split_and!.
  destruct (resolve_parent_escapes "package.json" Hname) as [Hresolve Hserve].
  split; [exact Hresolve|].
  apply Hserve; [apply coherent_initial | reflexivity].
Defined.

End PathClaimsExamples.

(** ** The API handler: methods and paths *)

Section ApiRouting.

Context {folding : CaseFolding}.

Import Api.

Lemma throws_paths (apiPath : string) (certs : list Cert) (e : Env) :
  Notions.throws apiPath certs e = true → apiPath ∈ API_PATHS.
Proof.
  unfold Notions.throws, API_PATHS.
  rewrite orb_true_iff, !andb_true_iff, !String.eqb_eq.
  intros [[-> _]|[-> _]]; repeat constructor.
Qed.

(** Only GET loads the dataset.  An event without a method or without
    a path is answered with the Internal Server Error response and no
    read of the data file; OPTIONS with 200 and an empty body, any
    method other than OPTIONS and GET with 405, both leaving the state
    as it is.  A GET that loads a dataset that is not empty is answered
    with 404 and a body that names the path on every path but the six
    of the API, with 500 and the Internal Server Error body when the
    route throws, which only [/sectors] and [/health] can, and with 200
    otherwise. *)
Theorem api_handler_routing :
  ∀ (event : Event) (e : Env) (s : State),
    ((ev_method event = None ∨ ev_rawPath event = None) →
     (handler event e s).1 = unexpected (clock e (ticks s))
     ∧ statusCode (handler event e s).1 = 500
     ∧ reads (handler event e s).2 = reads s
     ∧ certData (handler event e s).2 = certData s)
    ∧ (∀ method rawPath,
         ev_method event = Some method → ev_rawPath event = Some rawPath →
         (method ≠ "GET" →
          (handler event e s).2 = s
          ∧ (method = "OPTIONS" →
             statusCode (handler event e s).1 = 200
             ∧ body (handler event e s).1 = BodyLiteral "")
          ∧ (method ≠ "OPTIONS" →
             statusCode (handler event e s).1 = 405
             ∧ body (handler event e s).1
               = BodyJson (JError (mkErrorJson "Method Not Allowed"
                             ("HTTP method " ++ method ++ " is not supported")))))
         ∧ (method = "GET" → (loadCertData e s).1 ≠ [] →
            (statusCode (handler event e s).1 = 200
             ↔ api_path rawPath ∈ API_PATHS
               ∧ Notions.throws (api_path rawPath) (loadCertData e s).1 e = false)
            ∧ (statusCode (handler event e s).1 = 404
               ↔ api_path rawPath ∉ API_PATHS)
            ∧ (statusCode (handler event e s).1 = 500
               ↔ Notions.throws (api_path rawPath) (loadCertData e s).1 e = true)
            ∧ (api_path rawPath ∉ API_PATHS →
               body (handler event e s).1
               = BodyJson (JError (mkErrorJson "Not Found"
                             ("API endpoint " ++ api_path rawPath ++ " not found"))))
            ∧ (Notions.throws (api_path rawPath) (loadCertData e s).1 e = true →
               ∃ t, body (handler event e s).1
                    = BodyJson (JInternalError
                        (mkErrorJson "Internal Server Error"
                           "An unexpected error occurred") t)))).
Proof.
  intros [method rawPath q] e s. simpl. split.
  - intros Hmissing. unfold handler. simpl.
    destruct method as [method|], rawPath as [rawPath|];
      try done; destruct Hmissing; done.
  - intros m p [= ->] [= ->]. split.
    + intros Hget. unfold handler. simpl.
      destruct (String.eqb_spec m "OPTIONS") as [->|Hopt]; [by split_and!|].
      apply String.eqb_neq in Hget. rewrite Hget. by split_and!.
    + intros -> Hdata.
      destruct (handler_GET_cases p q e s)
        as [[Hempty _]|[(_ & Hthrows & t & ->)|[(_ & Hthrows & Hin & j & ->)
           |(_ & Hthrows & Hout & ->)]]]; [done| | |].
      * pose proof (throws_paths _ _ _ Hthrows) as Hin. rewrite Hthrows.
        split_and!; try done.
        -- split; [done | by intros [_ ?]].
        -- intros _. by exists t.
      * rewrite Hthrows. split_and!; try done.
      * rewrite Hthrows. split_and!; try done.
        split; [done | by intros [? _]].
Qed.

Lemma startsWith_api_after (c : ascii) (pre post : string) :
  startsWith (String c pre) "/api" = false →
  startsWith (String c (pre ++ "/api" ++ post)) "/api" = false.
Proof.
  simpl. destruct (Ascii.eqb c "/"); [|done].
  destruct pre as [|c1 pre]; [done|]. rewrite append_String.
  destruct (Ascii.eqb c1 "a"); [|done].
  destruct pre as [|c2 pre]; [done|]. rewrite append_String.
  destruct (Ascii.eqb c2 "p"); [|done].
  destruct pre as [|c3 pre]; [done|]. rewrite append_String.
  by destruct (Ascii.eqb c3 "i").
Qed.

Lemma replace_cons (c : ascii) (s pat rep : string) :
  replace (String c s) pat rep
  = if startsWith (String c s) pat
    then rep ++ drop_chars (String.length pat) (String c s)
    else String c (replace s pat rep).
Proof. reflexivity. Qed.

Lemma replace_api (pre post : string) :
  includes pre "/api" = false →
  replace (pre ++ "/api" ++ post) "/api" "" = pre ++ post.
Proof.
  induction pre as [|c pre IH]; intros Hpre.
  - reflexivity.
  - simpl in Hpre. apply orb_false_iff in Hpre as [Hstart Hrest].
    rewrite (append_String c pre), replace_cons.
    rewrite (startsWith_api_after c pre post) by exact Hstart.
    by rewrite IH.
Qed.

Lemma replace_absent (s pat rep : string) :
  includes s pat = false → replace s pat rep = s.
Proof.
  induction s as [|c s IH]; simpl; intros Hs.
  - apply orb_false_iff in Hs as [-> _]. done.
  - apply orb_false_iff in Hs as [-> Hrest]. by rewrite IH.
Qed.

(** The path the routes see is the request path without its first
    [/api], wherever that stands, and [/] when nothing is left: a
    request path without [/api] is routed as it is, [/api/x] as [/x],
    and also [/x/api] as [/x]. *)
Theorem api_path_strips_first :
  (∀ pre post : string,
      includes pre "/api" = false →
      api_path (pre ++ "/api" ++ post)
      = if truthy (pre ++ post) then pre ++ post else "/")
  ∧ (∀ rawPath : string,
       includes rawPath "/api" = false →
       api_path rawPath = if truthy rawPath then rawPath else "/").
Proof.
  split.
  - intros pre post Hpre. unfold api_path. by rewrite replace_api.
  - intros rawPath Hno. unfold api_path. by rewrite replace_absent.
Qed.

Lemma api_path_strips_first_witness :
  api_path "/certs/api" = "/certs"
  ∧ api_path "/api" = "/"
  ∧ api_path "/stats" = "/stats".
Proof.
  split; [|split].
  - apply (proj1 api_path_strips_first "/certs" ""). reflexivity.
  - apply (proj1 api_path_strips_first "" ""). reflexivity.
  - apply (proj2 api_path_strips_first "/stats"). reflexivity.
Defined.

End ApiRouting.

Section ApiRoutingExamples.

#[local] Existing Instance ascii_folding.

Import Api.

Lemma api_handler_routing_witness :
  (statusCode (handler (mkEvent (Some "DELETE") (Some "/certs") [])
                 (Sample.api_env (Some Sample.certs)) initial).1 = 405
   ∧ (handler (mkEvent (Some "DELETE") (Some "/certs") [])
        (Sample.api_env (Some Sample.certs)) initial).2 = initial)
  ∧ statusCode (handler (mkEvent (Some "GET") None [])
                  (Sample.api_env (Some Sample.certs)) initial).1 = 500
  ∧ statusCode (handler (Sample.get "/api/certs/1" [])
                  (Sample.api_env (Some Sample.certs)) initial).1 = 404.
Proof.
  split; [|split].
  - destruct (proj1 (proj2 (api_handler_routing
                              (mkEvent (Some "DELETE") (Some "/certs") [])
                              (Sample.api_env (Some Sample.certs)) initial)
                       "DELETE" "/certs" eq_refl eq_refl) ltac:(discriminate))
      as (Hstate & _ & Hother).
    split; [apply Hother; discriminate | exact Hstate].
  - apply (proj1 (api_handler_routing (mkEvent (Some "GET") None [])
                    (Sample.api_env (Some Sample.certs)) initial)).
    by right.
  - apply (proj1 (proj2 (proj2 (proj2 (api_handler_routing
                    (Sample.get "/api/certs/1" [])
                    (Sample.api_env (Some Sample.certs)) initial)
                    "GET" "/api/certs/1" eq_refl eq_refl) eq_refl
                    ltac:(discriminate)))).
    change (api_path "/api/certs/1") with "/certs/1". unfold API_PATHS.
    not_in_list.
Defined.

End ApiRoutingExamples.
